(** * AltCraft chunk sections: decoding a section and looking voxels up

    A shallow embedding of [src/world/Section.cpp].  The class keeps three raw
    buffers behind [byte *] members until [Section::Parse] turns them into the
    vector [m_blocks]; the buffers are allocated with [new byte[n]], mutated in
    place by the decoder and released with [delete[]].  Pointers are therefore
    modelled as locations of an explicit heap, the member functions pass the
    heap and the object along, and every place where the C++ code has no
    defined behaviour (reading through a null or too short buffer, indexing a
    vector out of range) is an explicit [Undefined] outcome. *)

From Stdlib Require Import ZArith List Lia Bool.
Import ListNotations.
Open Scope Z_scope.

(** ** Machine integers

    [byte] is [unsigned char] and the accumulator of the decoder is an
    [unsigned short]; an assignment to either keeps the low bits. *)

Definition u8 (x : Z) : Z := x mod 256.
Definition u16 (x : Z) : Z := x mod 65536.

Definition is_byte (b : Z) : Prop := 0 <= b < 256.

(** ** Outcomes of a member function *)

Inductive Outcome (A : Type) : Type :=
| Returned (a : A)
| Thrown (code : Z) (a : A)
| Undefined.
Arguments Returned {A} a.
Arguments Thrown {A} code a.
Arguments Undefined {A}.

Definition is_thrown {A} (o : Outcome A) : bool :=
  match o with Thrown _ _ => true | _ => false end.

Definition is_defined {A} (o : Outcome A) : bool :=
  match o with Undefined => false | _ => true end.

(** ** The heap of [new byte[n]] arrays

    A location is the index of its cell; a cell released by [delete[]] holds
    [None] and is never handed out again. *)

Abbreviation loc := nat.
Definition Heap := list (option (list Z)).

Definition heap_get (h : Heap) (p : loc) : option (list Z) :=
  match nth_error h p with
  | Some (Some buf) => Some buf
  | _ => None
  end.

Fixpoint heap_put (h : Heap) (p : loc) (c : option (list Z)) : Heap :=
  match h, p with
  | [], _ => []
  | _ :: h', O => c :: h'
  | x :: h', S p' => x :: heap_put h' p' c
  end.

Definition heap_new (h : Heap) (buf : list Z) : Heap * loc :=
  (h ++ [Some buf], length h).

(** [delete[] p] on a null pointer, which does nothing, or on a live array.
    [Parse] uses it for lines 91-96.  On a pointer that is neither, where
    [delete[]] has no defined behaviour, it leaves the heap as it is: a
    statement that a run of [Parse] returns speaks of the code when the three
    pointers are null or refer to distinct live arrays. *)
Definition heap_delete (h : Heap) (p : option loc) : Heap :=
  match p with
  | None => h
  | Some l => heap_put h l None
  end.

(** The [n] bytes of the range [p, p + n) that [std::copy] reads: the empty
    range is readable whatever [p] is, any other range needs a live array of
    at least [n] bytes. *)
Definition read_bytes (h : Heap) (p : option loc) (n : nat) : option (list Z) :=
  match n with
  | O => Some []
  | S _ =>
      match p with
      | None => None
      | Some l =>
          match heap_get h l with
          | None => None
          | Some buf => if (n <=? length buf)%nat then Some (firstn n buf) else None
          end
      end
  end.

(** [dst = new byte[n]; std::copy(src, src + n, dst)]. *)
Definition new_copy (h : Heap) (src : option loc) (n : nat) : option (Heap * loc) :=
  match read_bytes h src n with
  | None => None
  | Some bytes => Some (heap_new h bytes)
  end.

(** ** Value types *)

(** Modelled from the spec: [Vector] (Vector.hpp is not among the sources), an
    integer triple with the accessors [GetX], [GetY], [GetZ]. *)
Record Vector := mkVector { GetX : Z; GetY : Z; GetZ : Z }.

(** Modelled from the spec: [Block] (Block.hpp is not among the sources), the
    pair built by [Block(id, state)]. *)
Record Block := mkBlock { id : Z; state : Z }.

(** The data members of [Section] that [Section.cpp] uses.  The condition
    variable [parseWaiter] carries no data and is left out; [m_dataBlocksLen]
    is a [size_t] that only ever holds the length of an array, and
    [m_bitsPerBlock] is a [byte]. *)
Record Section := mkSection {
  worldPosition : Vector;
  m_dataBlocksLen : nat;
  m_dataBlocks : option loc;
  m_dataLight : option loc;
  m_dataSkyLight : option loc;
  m_blocks : list Block;
  m_palette : list Z;
  m_bitsPerBlock : Z
}.

Definition LIGHT_BYTES : nat := Z.to_nat 2048.
Definition SECTION_VOLUME : nat := Z.to_nat 4096.

(** ** Section::Section(Vector, byte*, size_t, byte*, byte*, byte, vector)

    [m_dataSkyLight] keeps its null default when [dataSky] is null. *)
Definition Section_new (h : Heap) (position : Vector)
    (dataBlocks : option loc) (dataBlocksLength : nat)
    (dataLight dataSky : option loc) (bitsPerBlock : Z) (palette : list Z)
  : Outcome (Heap * Section) :=
  match new_copy h dataBlocks dataBlocksLength with
  | None => Undefined
  | Some (h1, pBlocks) =>
      match new_copy h1 dataLight LIGHT_BYTES with
      | None => Undefined
      | Some (h2, pLight) =>
          match dataSky with
          | Some _ =>
              match new_copy h2 dataSky LIGHT_BYTES with
              | None => Undefined
              | Some (h3, pSky) =>
                  Returned (h3, mkSection position dataBlocksLength (Some pBlocks)
                                  (Some pLight) (Some pSky) [] palette bitsPerBlock)
              end
          | None =>
              Returned (h2, mkSection position dataBlocksLength (Some pBlocks)
                              (Some pLight) None [] palette bitsPerBlock)
          end
      end
  end.

(** ** Section::Section(const Section &)

    [m_blocks] is not mentioned by the copy constructor, so the copy's vector
    is the default, empty one; the sky-light pointer stays null when the
    original's is. *)
Definition Section_copy (h : Heap) (other : Section) : Outcome (Heap * Section) :=
  match new_copy h (m_dataBlocks other) (m_dataBlocksLen other) with
  | None => Undefined
  | Some (h1, pBlocks) =>
      match new_copy h1 (m_dataLight other) LIGHT_BYTES with
      | None => Undefined
      | Some (h2, pLight) =>
          match m_dataSkyLight other with
          | Some _ =>
              match new_copy h2 (m_dataSkyLight other) LIGHT_BYTES with
              | None => Undefined
              | Some (h3, pSky) =>
                  Returned (h3, mkSection (worldPosition other) (m_dataBlocksLen other)
                                  (Some pBlocks) (Some pLight) (Some pSky) []
                                  (m_palette other) (m_bitsPerBlock other))
              end
          | None =>
              Returned (h2, mkSection (worldPosition other) (m_dataBlocksLen other)
                              (Some pBlocks) (Some pLight) None []
                              (m_palette other) (m_bitsPerBlock other))
          end
      end
  end.

(** ** Section::GetBlock

    On a pending section the caller waits on [parseWaiter]; otherwise the
    element of [m_blocks] at [y * 256 + z * 16 + x] is returned, and
    [operator[]] has no defined result outside the vector (a negative index
    converts to a [size_t] beyond any vector). *)
Inductive Lookup : Type :=
| Waits
| Found (b : Block)
| OutOfRange.

Definition block_index (pos : Vector) : Z :=
  GetY pos * 256 + GetZ pos * 16 + GetX pos.

Definition GetBlock (s : Section) (pos : Vector) : Lookup :=
  match m_dataBlocks s with
  | Some _ => Waits
  | None =>
      if block_index pos <? 0 then OutOfRange
      else match nth_error (m_blocks s) (Z.to_nat (block_index pos)) with
           | Some b => Found b
           | None => OutOfRange
           end
  end.

(** ** Section::GetPosition *)
Definition GetPosition (s : Section) : Vector := worldPosition s.

(** ** Section::~Section

    [delete[]] of a null pointer does nothing; [delete[]] of a pointer that is
    not a live array (a second [delete[]] of the same array) has no defined
    behaviour.  The result is the heap and the object at the end of the body
    of the destructor; the members [m_blocks] and [m_palette] are destroyed
    after it and own no array of this heap. *)
Definition delete_array (h : Heap) (p : option loc) : option Heap :=
  match p with
  | None => Some h
  | Some l =>
      match heap_get h l with
      | Some _ => Some (heap_put h l None)
      | None => None
      end
  end.

Definition Section_destroy (h : Heap) (s : Section) : Outcome (Heap * Section) :=
  match delete_array h (m_dataBlocks s) with
  | None => Undefined
  | Some h1 =>
      match delete_array h1 (m_dataLight s) with
      | None => Undefined
      | Some h2 =>
          match delete_array h2 (m_dataSkyLight s) with
          | None => Undefined
          | Some h3 =>
              Returned (h3, mkSection (worldPosition s) 0 None None None (m_blocks s)
                              (m_palette s) (m_bitsPerBlock s))
          end
      end
  end.

(** ** swap(Section &, Section &)

    Seven members are exchanged; [worldPosition] is not among them.  The
    result is the pair of the objects [a] and [b] after the call. *)
Definition swap (a b : Section) : Section * Section :=
  (mkSection (worldPosition a) (m_dataBlocksLen b) (m_dataBlocks b) (m_dataLight b)
     (m_dataSkyLight b) (m_blocks b) (m_palette b) (m_bitsPerBlock b),
   mkSection (worldPosition b) (m_dataBlocksLen a) (m_dataBlocks a) (m_dataLight a)
     (m_dataSkyLight a) (m_blocks a) (m_palette a) (m_bitsPerBlock a)).

(** ** Section::Parse, lines 52-54: byte order of the 64-bit words *)

(** Modelled from the spec: [endswap] (Utility.hpp is not among the sources)
    byte-swaps one 64-bit word in place, 0x0102030405060708 becoming
    0x0807060504030201. *)
Definition endswap (word : list Z) : list Z := rev word.

Fixpoint endswap_loop (n : nat) (data : list Z) : list Z :=
  match n with
  | O => data
  | S n' => endswap (firstn 8 data) ++ endswap_loop n' (skipn 8 data)
  end.

(** ** Section::Parse, lines 55-72: the bit-unpacking loop *)

Record Unpacker := mkUnpacker { bitPos : Z; t : Z; blocks : list Z }.

Definition unpacker_init : Unpacker := mkUnpacker 0 0 [].

(** One pass through the body of the inner loop, on the byte [b] that
    [m_dataBlocks[i]] holds; the byte as the pass leaves it is returned too.
    The shift of line 67 is done on the promoted [int], for which C++ defines
    the counts 0 to 31 only, that is the widths 1 to 32; the model takes the
    mathematical shift for every count. *)
Definition unpack_bit (bitsPerBlock : Z) (st : Unpacker) (b : Z) : Unpacker * Z :=
  let t1 := u16 (Z.lor (t st) (if Z.land b 1 =? 0 then 0 else 128)) in
  let t2 := u16 (Z.shiftr t1 1) in
  let b' := u8 (Z.shiftr b 1) in
  let bitPos' := bitPos st + 1 in
  if bitPos' >=? bitsPerBlock
  then (mkUnpacker 0 0 (blocks st ++ [u16 (Z.shiftr t2 (bitsPerBlock - 1))]), b')
  else (mkUnpacker bitPos' t2 (blocks st), b').

Fixpoint unpack_byte_loop (j : nat) (bitsPerBlock : Z) (st : Unpacker) (b : Z)
  : Unpacker * Z :=
  match j with
  | O => (st, b)
  | S j' =>
      let '(st', b') := unpack_bit bitsPerBlock st b in
      unpack_byte_loop j' bitsPerBlock st' b'
  end.

Definition unpack_byte (bitsPerBlock : Z) (st : Unpacker) (b : Z) : Unpacker * Z :=
  unpack_byte_loop 8 bitsPerBlock st b.

(** The outer loop over the bytes of the buffer; the second component is the
    buffer as the loop leaves it. *)
Fixpoint unpack_loop (bitsPerBlock : Z) (st : Unpacker) (data : list Z)
  : Unpacker * list Z :=
  match data with
  | [] => (st, [])
  | b :: rest =>
      let '(st1, b') := unpack_byte bitsPerBlock st b in
      let '(st2, rest') := unpack_loop bitsPerBlock st1 rest in
      (st2, b' :: rest')
  end.

(** The values the loop emits on a buffer. *)
Definition unpack (bitsPerBlock : Z) (data : list Z) : list Z :=
  blocks (fst (unpack_loop bitsPerBlock unpacker_init data)).

(** ** Section::Parse, lines 74-82: the light loop *)

Definition light_pair (b : Z) : Z * Z :=
  (u8 (Z.land b 240), u8 (Z.shiftr b 4)).

Fixpoint light_loop (n i : nat) (dataLight light : list Z) : option (list Z) :=
  match n with
  | O => Some light
  | S n' =>
      match nth_error dataLight i with
      | None => None
      | Some b =>
          let '(first, second) := light_pair b in
          light_loop n' (S i) dataLight (light ++ [first; second])
      end
  end.

(** ** Section::Parse, lines 83-87: palette and voxels *)

Definition resolve (palette : list Z) (local : Z) : option Z :=
  if (0 <? length palette)%nat
  then (if local <? 0 then None else nth_error palette (Z.to_nat local))
  else Some local.

Definition make_block (blockId : Z) : Block :=
  mkBlock (Z.shiftr blockId 4) (Z.land blockId 15).

Fixpoint decode_loop (n i : nat) (palette locals : list Z) (voxels : list Block)
  : option (list Block) :=
  match n with
  | O => Some voxels
  | S n' =>
      match nth_error locals i with
      | None => None
      | Some local =>
          match resolve palette local with
          | None => None
          | Some blockId =>
              decode_loop n' (S i) palette locals (voxels ++ [make_block blockId])
          end
      end
  end.

(** ** Section::Parse *)

(** The block buffer after lines 52-54: the first [m_dataBlocksLen] bytes with
    every complete group of eight reversed. *)
Definition normalized (s : Section) (raw : list Z) : list Z :=
  endswap_loop (m_dataBlocksLen s / 8) (firstn (m_dataBlocksLen s) raw).

(** The two local vectors [blocks] and [light] of a run on the block buffer at
    [p], with the heap as lines 52-82 leave it. *)
Definition Parse_locals (h : Heap) (s : Section) (p : loc)
  : option (list Z * list Z * Heap) :=
  match heap_get h p with
  | None => None
  | Some raw =>
      if (length raw <? m_dataBlocksLen s)%nat then None
      else
        let '(st, used) :=
          unpack_loop (m_bitsPerBlock s) unpacker_init (normalized s raw) in
        let h1 := heap_put h p (Some (used ++ skipn (m_dataBlocksLen s) raw)) in
        match m_dataLight s with
        | None => None
        | Some pLight =>
            match heap_get h1 pLight with
            | None => None
            | Some dataLight =>
                match light_loop LIGHT_BYTES 0 dataLight [] with
                | None => None
                | Some light => Some (blocks st, light, h1)
                end
            end
        end
  end.

Definition count_check (light locals : list Z) : bool :=
  (Z.of_nat (length light) + Z.of_nat (length locals)) / 2 =? 4096.

(** The whole member function.  The voxels are appended to [m_blocks] before
    the check of line 88, so a throw leaves them there; the last statement,
    [parseWaiter.notify_all()], changes no data. *)
Definition Parse (h : Heap) (s : Section) : Outcome (Heap * Section) :=
  match m_dataBlocks s with
  | None => Returned (h, s)
  | Some p =>
      match Parse_locals h s p with
      | None => Undefined
      | Some (locals, light, h1) =>
          match decode_loop SECTION_VOLUME 0 (m_palette s) locals (m_blocks s) with
          | None => Undefined
          | Some voxels =>
              if count_check light locals
              then
                let h2 := heap_delete h1 (m_dataBlocks s) in
                let h3 := heap_delete h2 (m_dataLight s) in
                let h4 := heap_delete h3 (m_dataSkyLight s) in
                Returned (h4, mkSection (worldPosition s) 0 None None None voxels
                                (m_palette s) (m_bitsPerBlock s))
              else
                Thrown 118 (h1, mkSection (worldPosition s) (m_dataBlocksLen s)
                                  (m_dataBlocks s) (m_dataLight s) (m_dataSkyLight s)
                                  voxels (m_palette s) (m_bitsPerBlock s))
          end
      end
  end.

(** ** The representation invariant

    The raw buffers are present while [m_dataBlocks] is not null; the decoded
    array is present once [m_blocks] holds voxels. *)

Definition raw_present (s : Section) : bool :=
  match m_dataBlocks s with Some _ => true | None => false end.

Definition voxels_present (s : Section) : bool :=
  match m_blocks s with [] => false | _ :: _ => true end.

Definition exactly_one (s : Section) : bool :=
  xorb (raw_present s) (voxels_present s).

(** The byte vectors that a run of [Parse] builds. *)
Definition Parse_vectors (h : Heap) (s : Section) (p : loc) : list (list Z) :=
  match Parse_locals h s p with
  | Some (locals, light, _) => [locals; light]
  | None => []
  end.

(** ** The packer of the round-trip property

    The inverse of the bit-unpacker as the specification words it: the entries
    are laid out one after the other, each with its least significant bit
    first, and the bit stream fills every byte from its least significant bit
    upwards, byte after byte. *)

Fixpoint entry_bits (n : nat) (v : Z) : list bool :=
  match n with
  | O => []
  | S n' => Z.odd v :: entry_bits n' (Z.div2 v)
  end.

Fixpoint bits_value (bits : list bool) : Z :=
  match bits with
  | [] => 0
  | b :: rest => Z.b2z b + 2 * bits_value rest
  end.

Fixpoint pack_bits (bits : list bool) : list Z :=
  match bits with
  | b0 :: b1 :: b2 :: b3 :: b4 :: b5 :: b6 :: b7 :: rest =>
      bits_value [b0; b1; b2; b3; b4; b5; b6; b7] :: pack_bits rest
  | [] => []
  | _ => [bits_value bits]
  end.

Definition pack (bitsPerEntry : Z) (values : list Z) : list Z :=
  pack_bits (flat_map (entry_bits (Z.to_nat bitsPerEntry)) values).

(** The bit stream of a buffer, and the loop body read as arithmetic on one
    bit of that stream: the accumulator takes the bit at weight 128 and is
    halved; a full entry is divided by [2 ^ (bitsPerBlock - 1)] on its way
    out. *)
Definition buffer_bits (data : list Z) : list bool :=
  flat_map (entry_bits 8) data.

Definition push_bit (bitsPerBlock : Z) (st : Unpacker) (bit : bool) : Unpacker :=
  let t2 := (t st + (if bit then 128 else 0)) / 2 in
  if bitPos st + 1 >=? bitsPerBlock
  then mkUnpacker 0 0 (blocks st ++ [t2 / 2 ^ (bitsPerBlock - 1)])
  else mkUnpacker (bitPos st + 1) t2 (blocks st).

(** What the loop emits for an entry whose packed value is [v]. *)
Definition emitted (bitsPerBlock v : Z) : Z := v * 256 / 4 ^ bitsPerBlock.

(** The loop invariant on the accumulator and the bit counter. *)
Definition unpacker_ok (bitsPerBlock : Z) (st : Unpacker) : Prop :=
  0 <= bitPos st < bitsPerBlock /\ 0 <= t st < 128 /\
  (bitPos st <= 7 -> (t st) mod 2 ^ (7 - bitPos st) = 0).

Definition emitted_ok (bitsPerBlock v : Z) : Prop :=
  0 <= v /\
  (bitsPerBlock <= 8 -> v < 2 ^ (8 - bitsPerBlock)) /\
  (8 <= bitsPerBlock -> v = 0) /\
  (bitsPerBlock <= 4 -> v mod 2 ^ (8 - 2 * bitsPerBlock) = 0).

(** A width produces the full range of its entries when every value below
    [2 ^ bitsPerBlock] is emitted on some buffer. *)
Definition full_range (bitsPerBlock : Z) : Prop :=
  forall v, 0 <= v < 2 ^ bitsPerBlock ->
    exists data, Forall is_byte data /\ In v (unpack bitsPerBlock data).

(** ** Sample sections *)

Definition sample_position : Vector := mkVector 3 0 (-2).

Definition ramp (n : nat) : list Z :=
  map (fun i => Z.of_nat i mod 256) (seq 0 n).

Definition sample_light : list Z := repeat 171 LIGHT_BYTES.
Definition sample_sky : list Z := repeat 255 LIGHT_BYTES.
Definition sample_palette : list Z := map (fun i => 16 * Z.of_nat i + 3) (seq 0 16).

(** The caller's buffers: blocks at 0, light at 1, sky light at 2. *)
Definition caller_heap (dataBlocks : list Z) : Heap :=
  [Some dataBlocks; Some sample_light; Some sample_sky].

Definition outcome_value {A} (d : A) (o : Outcome A) : A :=
  match o with
  | Returned a => a
  | Thrown _ a => a
  | Undefined => d
  end.

Definition no_section : Section := mkSection sample_position 0 None None None [] [] 0.

Definition construct (dataBlocks : list Z) (bitsPerBlock : Z) (palette : list Z)
  : Heap * Section :=
  outcome_value ([], no_section)
    (Section_new (caller_heap dataBlocks) sample_position (Some 0%nat)
       (length dataBlocks) (Some 1%nat) (Some 2%nat) bitsPerBlock palette).

(** 2048 bytes at four bits per entry: exactly 4096 entries. *)
Definition pending_sample : Heap * Section :=
  construct (ramp (Z.to_nat 2048)) 4 sample_palette.

Definition decoded_sample : Heap * Section :=
  outcome_value ([], no_section) (Parse (fst pending_sample) (snd pending_sample)).

(** 2056 bytes at four bits per entry: 4112 entries. *)
Definition long_sample : Heap * Section :=
  construct (ramp (Z.to_nat 2056)) 4 [].

(** 4097 bytes at eight bits per entry: 4097 entries. *)
Definition odd_sample : Heap * Section :=
  construct (ramp (Z.to_nat 4097)) 8 [].

(** Eight bytes at four bits per entry: 16 entries. *)
Definition short_sample : Heap * Section :=
  construct (ramp 8) 4 [].


(** The sky-light buffer of a section is unpacked by a run of [Parse] when the
    light mapping of its bytes is one of the vectors the run builds. *)
Definition sky_light_unpacked (h : Heap) (s : Section) (p : loc) : Prop :=
  forall pSky sky,
    m_dataSkyLight s = Some pSky -> heap_get h pSky = Some sky ->
    exists skyLight,
      light_loop LIGHT_BYTES 0 sky [] = Some skyLight /\
      In skyLight (Parse_vectors h s p).

(** The invariant of the bit-unpacking loop after [n] bits. *)
Definition loop_inv (bitsPerBlock n : Z) (st : Unpacker) : Prop :=
  unpacker_ok bitsPerBlock st /\
  Forall (emitted_ok bitsPerBlock) (blocks st) /\
  Z.of_nat (length (blocks st)) * bitsPerBlock + bitPos st = n.

(** Powers of two with a closed exponent, evaluated in the goal and in the
    hypotheses. *)
Ltac eval_pows :=
  repeat match goal with
  | |- context [Z.pow 2 ?e] =>
      let v := eval vm_compute in (Z.pow 2 e) in
      progress change (Z.pow 2 e) with v
  | H : context [Z.pow 2 ?e] |- _ =>
      let v := eval vm_compute in (Z.pow 2 e) in
      progress change (Z.pow 2 e) with v in H
  end.

(** * The accumulator of the bit-unpacking loop *)

Lemma lor_bit7 (x : Z) : 0 <= x < 128 -> Z.lor x 128 = x + 128.
Proof.
  intros Hx.
  assert (Hland : Z.land x 128 = 0).
  { apply Z.bits_inj'. intros n Hn.
    rewrite Z.land_spec, Z.bits_0.
    destruct (Z.eq_dec n 7) as [-> | Hne].
    - replace (Z.testbit x 7) with false; [reflexivity |].
      symmetry. apply Z.testbit_false; [lia |].
      rewrite Z.div_small by (change (2 ^ 7) with 128; lia). reflexivity.
    - replace (Z.testbit 128 n) with false; [apply andb_false_r |].
      symmetry. change 128 with (2 ^ 7). apply Z.pow2_bits_false. lia. }
  pose proof (Z.add_lor_land x 128) as H. rewrite Hland in H. lia.
Qed.

Lemma low_bit_odd (b : Z) : (Z.land b 1 =? 0) = negb (Z.odd b).
Proof.
  change 1 with (Z.ones 1). rewrite Z.land_ones by lia.
  change (2 ^ 1) with 2. rewrite Zmod_odd. destruct (Z.odd b); reflexivity.
Qed.

Lemma unpack_bit_snd (k : Z) (st : Unpacker) (b : Z) :
  snd (unpack_bit k st b) = u8 (Z.shiftr b 1).
Proof. unfold unpack_bit. destruct (_ >=? _); reflexivity. Qed.

Lemma unpack_bit_fst (k : Z) (st : Unpacker) (b : Z) :
  1 <= k -> 0 <= t st < 128 ->
  fst (unpack_bit k st b) = push_bit k st (Z.odd b).
Proof.
  intros Hk Ht. unfold unpack_bit, push_bit.
  rewrite low_bit_odd.
  set (c := if Z.odd b then 128 else 0).
  assert (Hlor : Z.lor (t st) (if negb (Z.odd b) then 0 else 128) = t st + c).
  { subst c. destruct (Z.odd b); simpl negb; cbv iota.
    - apply lor_bit7; assumption.
    - rewrite Z.lor_0_r. lia. }
  rewrite Hlor.
  assert (Hc : c = 0 \/ c = 128) by (subst c; destruct (Z.odd b); auto).
  assert (H1 : u16 (t st + c) = t st + c) by (unfold u16; apply Z.mod_small; lia).
  rewrite H1. rewrite !Z.shiftr_div_pow2 by lia. change (2 ^ 1) with 2.
  assert (H2 : 0 <= (t st + c) / 2 < 128).
  { split; [apply Z.div_pos; lia | apply Z.div_lt_upper_bound; lia]. }
  assert (H3 : u16 ((t st + c) / 2) = (t st + c) / 2) by (unfold u16; apply Z.mod_small; lia).
  rewrite H3.
  destruct (bitPos st + 1 >=? k); [| reflexivity].
  simpl fst.
  assert (H4 : 0 <= (t st + c) / 2 / 2 ^ (k - 1) < 128).
  { split.
    - apply Z.div_pos; [lia | apply Z.pow_pos_nonneg; lia].
    - apply Z.le_lt_trans with ((t st + c) / 2); [| lia].
      apply Z.div_le_upper_bound; [apply Z.pow_pos_nonneg; lia |].
      assert (0 < 2 ^ (k - 1)) by (apply Z.pow_pos_nonneg; lia). nia. }
  unfold u16 at 1. rewrite Z.mod_small by lia. reflexivity.
Qed.

(** One bit keeps the accumulator below 128, keeps the bit counter below the
    width, and advances the number of consumed bits by one. *)
Lemma push_bit_ok (k : Z) (st : Unpacker) (bit : bool) :
  unpacker_ok k st ->
  unpacker_ok k (push_bit k st bit) /\
  (Forall (emitted_ok k) (blocks st) ->
   Forall (emitted_ok k) (blocks (push_bit k st bit))) /\
  Z.of_nat (length (blocks (push_bit k st bit))) * k + bitPos (push_bit k st bit)
  = Z.of_nat (length (blocks st)) * k + bitPos st + 1.
Proof.
  intros (Hpos & Ht & Hmul). unfold push_bit.
  set (c := if bit then 128 else 0).
  assert (Hc : c = 0 \/ c = 128) by (subst c; destruct bit; auto).
  clearbody c.
  set (t2 := (t st + c) / 2).
  assert (Ht2 : 0 <= t2 < 128).
  { subst t2. split; [apply Z.div_pos; lia | apply Z.div_lt_upper_bound; lia]. }
  destruct (Z.geb_spec (bitPos st + 1) k) as [Hge | Hlt].
  - assert (Hk : bitPos st = k - 1) by lia.
    rewrite Hk in Hmul.
    assert (Hp : 0 < 2 ^ (k - 1)) by (apply Z.pow_pos_nonneg; lia).
    split; [| split].
    + unfold unpacker_ok; simpl. repeat split; lia.
    + intros Hall. simpl. apply Forall_app. split; [assumption |].
      constructor; [| constructor].
      unfold emitted_ok. split; [| split; [| split]].
      * apply Z.div_pos; lia.
      * intros H8. apply Z.div_lt_upper_bound; [assumption |].
        rewrite <- Z.pow_add_r by lia.
        replace (k - 1 + (8 - k)) with 7 by lia. change (2 ^ 7) with 128. lia.
      * intros H8. apply Z.div_small. split; [lia |].
        apply Z.lt_le_trans with (2 ^ 7); [change (2 ^ 7) with 128; lia |].
        apply Z.pow_le_mono_r; lia.
      * intros H4. specialize (Hmul ltac:(lia)).
        assert (Hcases : k = 1 \/ k = 2 \/ k = 3 \/ k = 4) by lia.
        subst t2.
        destruct Hcases as [-> | [-> | [-> | ->]]]; eval_pows;
          destruct Hc as [-> | ->]; Z.div_mod_to_equations; lia.
    + simpl. rewrite length_app. simpl length. lia.
  - split; [| split].
    + unfold unpacker_ok; simpl. repeat split; try lia.
      intros H7. specialize (Hmul ltac:(lia)).
      assert (Hcases : bitPos st = 0 \/ bitPos st = 1 \/ bitPos st = 2 \/
                       bitPos st = 3 \/ bitPos st = 4 \/ bitPos st = 5 \/
                       bitPos st = 6) by lia.
      subst t2.
      destruct Hcases as [E | [E | [E | [E | [E | [E | E]]]]]];
        rewrite E in *; eval_pows;
        destruct Hc as [-> | ->]; Z.div_mod_to_equations; lia.
    + intros Hall. exact Hall.
    + simpl. lia.
Qed.

(** The invariant over the three nested levels of the loop, for a fixed width
    of at least one bit. *)
Section BitLoop.

Variable k : Z.
Hypothesis Hk : 1 <= k.

Lemma loop_inv_init : loop_inv k 0 unpacker_init.
Proof.
  unfold loop_inv, unpacker_ok, unpacker_init; simpl.
  repeat split; try lia. constructor.
Qed.

Lemma loop_inv_bit (n : Z) (st : Unpacker) (b : Z) :
  loop_inv k n st -> loop_inv k (n + 1) (fst (unpack_bit k st b)).
Proof.
  intros (Hok & Hall & Hn).
  rewrite unpack_bit_fst by (assumption || apply Hok).
  destruct (push_bit_ok k st (Z.odd b) Hok) as (Hok' & Hall' & Hn').
  unfold loop_inv. split; [assumption | split; [auto | lia]].
Qed.

Lemma loop_inv_byte_loop (j : nat) :
  forall n st b, loop_inv k n st ->
    loop_inv k (n + Z.of_nat j) (fst (unpack_byte_loop j k st b)).
Proof.
  induction j as [| j IH]; intros n st b Hinv.
  - simpl. replace (n + 0) with n by lia. assumption.
  - cbn [unpack_byte_loop].
    pose proof (loop_inv_bit n st b Hinv) as Hbit.
    destruct (unpack_bit k st b) as [st' b'].
    replace (n + Z.of_nat (S j)) with (n + 1 + Z.of_nat j) by lia.
    apply IH. exact Hbit.
Qed.

Lemma loop_inv_loop (data : list Z) :
  forall n st, loop_inv k n st ->
    loop_inv k (n + 8 * Z.of_nat (length data)) (fst (unpack_loop k st data)).
Proof.
  induction data as [| b rest IH]; intros n st Hinv.
  - simpl. replace (n + 0) with n by lia. assumption.
  - cbn [unpack_loop].
    pose proof (loop_inv_byte_loop 8 n st b Hinv) as Hbyte.
    fold (unpack_byte k st b) in Hbyte.
    destruct (unpack_byte k st b) as [st1 b'].
    specialize (IH (n + 8) st1 Hbyte).
    destruct (unpack_loop k st1 rest) as [st2 rest'].
    simpl fst in *.
    replace (n + 8 * Z.of_nat (length (b :: rest)))
      with (n + 8 + 8 * Z.of_nat (length rest)) by (simpl length; lia).
    exact IH.
Qed.

Lemma unpack_inv (data : list Z) :
  loop_inv k (8 * Z.of_nat (length data))
    (fst (unpack_loop k unpacker_init data)).
Proof. apply (loop_inv_loop data 0 unpacker_init loop_inv_init). Qed.

(** The number of entries the loop emits. *)
Lemma unpack_length (data : list Z) :
  Z.of_nat (length (unpack k data)) = 8 * Z.of_nat (length data) / k.
Proof.
  destruct (unpack_inv data) as ((Hpos & _) & _ & Hn).
  unfold unpack.
  apply Z.div_unique with (bitPos (fst (unpack_loop k unpacker_init data))).
  - left. lia.
  - lia.
Qed.

Lemma unpack_emitted_ok (data : list Z) (v : Z) :
  In v (unpack k data) -> emitted_ok k v.
Proof.
  intros Hin. destruct (unpack_inv data) as (_ & Hall & _).
  rewrite Forall_forall in Hall. apply Hall. exact Hin.
Qed.

End BitLoop.

(** * The loop as a fold over the bit stream *)

Lemma push_bit_t (k : Z) (st : Unpacker) (bit : bool) :
  0 <= t st < 128 -> 0 <= t (push_bit k st bit) < 128.
Proof.
  intros Ht. unfold push_bit.
  destruct (_ >=? _); simpl; [lia |].
  destruct bit; split;
    solve [apply Z.div_pos; lia | apply Z.div_lt_upper_bound; lia].
Qed.

Lemma fold_push_bit_t (k : Z) (bits : list bool) :
  forall st, 0 <= t st < 128 -> 0 <= t (fold_left (push_bit k) bits st) < 128.
Proof.
  induction bits as [| bit bits IH]; intros st Ht; simpl; [assumption |].
  apply IH. apply push_bit_t. assumption.
Qed.

Lemma byte_halved (b : Z) :
  is_byte b -> u8 (Z.shiftr b 1) = Z.div2 b /\ is_byte (Z.div2 b).
Proof.
  unfold is_byte, u8. intros Hb.
  rewrite Z.div2_spec. rewrite Z.shiftr_div_pow2 by lia. change (2 ^ 1) with 2.
  split; [apply Z.mod_small |]; Z.div_mod_to_equations; lia.
Qed.

Lemma unpack_byte_loop_bits (k : Z) (j : nat) :
  1 <= k ->
  forall st b, 0 <= t st < 128 -> is_byte b ->
    fst (unpack_byte_loop j k st b) = fold_left (push_bit k) (entry_bits j b) st.
Proof.
  intros Hk. induction j as [| j IH]; intros st b Ht Hb; [reflexivity |].
  cbn [unpack_byte_loop entry_bits fold_left].
  pose proof (unpack_bit_fst k st b Hk Ht) as Hfst.
  pose proof (unpack_bit_snd k st b) as Hsnd.
  destruct (unpack_bit k st b) as [st' b']. simpl in Hfst, Hsnd. subst st' b'.
  destruct (byte_halved b Hb) as [-> Hb'].
  apply IH; [apply push_bit_t; assumption | assumption].
Qed.

Lemma unpack_byte_bits (k : Z) (st : Unpacker) (b : Z) :
  1 <= k -> 0 <= t st < 128 -> is_byte b ->
  fst (unpack_byte k st b) = fold_left (push_bit k) (entry_bits 8 b) st.
Proof. intros Hk Ht Hb. apply unpack_byte_loop_bits; assumption. Qed.

Lemma unpack_loop_cons (k : Z) (st : Unpacker) (b : Z) (rest : list Z) :
  fst (unpack_loop k st (b :: rest))
  = fst (unpack_loop k (fst (unpack_byte k st b)) rest).
Proof.
  cbn [unpack_loop].
  destruct (unpack_byte k st b) as [st1 b']. cbn [fst].
  destruct (unpack_loop k st1 rest) as [st2 rest']. reflexivity.
Qed.

Lemma unpack_loop_bits (k : Z) (data : list Z) :
  1 <= k -> Forall is_byte data ->
  forall st, 0 <= t st < 128 ->
    fst (unpack_loop k st data) = fold_left (push_bit k) (buffer_bits data) st.
Proof.
  intros Hk Hall. induction Hall as [| b rest Hb Hrest IH]; intros st Ht; [reflexivity |].
  rewrite unpack_loop_cons, unpack_byte_bits by assumption.
  rewrite IH by (apply fold_push_bit_t; assumption).
  unfold buffer_bits. cbn [flat_map]. rewrite fold_left_app. reflexivity.
Qed.

(** Arithmetic of the accumulator over the [n] low bits of [w]. *)
Lemma halve_step (t0 c0 m p : Z) :
  0 < p ->
  ((t0 + 128 * c0) / 2 + 128 * m) / p = (t0 + 128 * (c0 + 2 * m)) / (2 * p).
Proof.
  intros Hp. rewrite <- Z.div_div by lia.
  replace (t0 + 128 * (c0 + 2 * m)) with (t0 + 128 * c0 + (128 * m) * 2) by lia.
  rewrite Z.div_add by lia. reflexivity.
Qed.

Lemma run_entry (k : Z) (n : nat) :
  forall j t0 w out,
    0 <= j -> j + Z.of_nat n <= k ->
    fold_left (push_bit k) (entry_bits n w) (mkUnpacker j t0 out) =
    let acc := (t0 + 128 * (w mod 2 ^ Z.of_nat n)) / 2 ^ Z.of_nat n in
    if (n =? 0)%nat || (j + Z.of_nat n <? k)
    then mkUnpacker (j + Z.of_nat n) acc out
    else mkUnpacker 0 0 (out ++ [acc / 2 ^ (k - 1)]).
Proof.
  induction n as [| n IH]; intros j t0 w out Hj Hle.
  - simpl. rewrite Z.mod_1_r, Z.div_1_r. f_equal; lia.
  - cbn [entry_bits fold_left]. cbv zeta.
    assert (Hc : (if Z.odd w then 128 else 0) = 128 * (w mod 2)).
    { rewrite Zmod_odd. destruct (Z.odd w); reflexivity. }
    assert (Hpow : 2 ^ Z.of_nat (S n) = 2 * 2 ^ Z.of_nat n).
    { rewrite Nat2Z.inj_succ, Z.pow_succ_r by lia. reflexivity. }
    assert (Hp : 0 < 2 ^ Z.of_nat n) by (apply Z.pow_pos_nonneg; lia).
    assert (Hmod : w mod 2 ^ Z.of_nat (S n) = w mod 2 + 2 * (Z.div2 w mod 2 ^ Z.of_nat n)).
    { rewrite Hpow, Z.rem_mul_r by lia. rewrite Z.div2_div. reflexivity. }
    assert (Hacc : ((t0 + 128 * (w mod 2)) / 2 + 128 * (Z.div2 w mod 2 ^ Z.of_nat n))
                   / 2 ^ Z.of_nat n
                   = (t0 + 128 * (w mod 2 ^ Z.of_nat (S n))) / 2 ^ Z.of_nat (S n)).
    { rewrite Hmod, Hpow. apply halve_step. assumption. }
    unfold push_bit at 2. cbn [t bitPos blocks]. rewrite Hc.
    destruct (Z.geb_spec (j + 1) k) as [Hge | Hlt].
    + assert (n = 0%nat) by lia. subst n.
      replace (j + Z.of_nat 1 <? k) with false by (symmetry; apply Z.ltb_ge; lia).
      cbn [entry_bits fold_left Nat.eqb orb].
      change (Z.of_nat 1) with 1. change (2 ^ 1) with 2. reflexivity.
    + rewrite IH by lia. cbv zeta. rewrite Hacc.
      replace (j + 1 + Z.of_nat n) with (j + Z.of_nat (S n)) by lia.
      destruct n as [| n']; [| reflexivity].
      cbn [Nat.eqb orb]. change (Z.of_nat 1) with 1.
      replace (j + 1 <? k) with true by (symmetry; apply Z.ltb_lt; lia).
      reflexivity.
Qed.

Lemma emitted_acc (k w : Z) :
  1 <= k -> (0 + 128 * w) / 2 ^ k / 2 ^ (k - 1) = emitted k w.
Proof.
  intros Hk. unfold emitted.
  assert (Hp : 0 < 2 ^ (k - 1)) by (apply Z.pow_pos_nonneg; lia).
  assert (Hk2 : 2 ^ k = 2 * 2 ^ (k - 1)).
  { rewrite <- Z.pow_succ_r by lia. f_equal. lia. }
  assert (H4 : 4 ^ k = 2 * (2 ^ k * 2 ^ (k - 1))).
  { change 4 with (2 ^ 2). rewrite <- Z.pow_mul_r by lia.
    rewrite <- Z.pow_add_r by lia. rewrite <- Z.pow_succ_r by lia.
    f_equal. lia. }
  rewrite Z.div_div by lia. rewrite H4.
  replace (w * 256) with (2 * (0 + 128 * w)) by lia.
  rewrite Z.div_mul_cancel_l by nia. reflexivity.
Qed.

Lemma run_entries (k : Z) (values : list Z) :
  1 <= k -> Forall (fun v => 0 <= v < 2 ^ k) values ->
  forall out,
    fold_left (push_bit k) (flat_map (entry_bits (Z.to_nat k)) values)
      (mkUnpacker 0 0 out)
    = mkUnpacker 0 0 (out ++ map (emitted k) values).
Proof.
  intros Hk Hall. induction Hall as [| v rest Hv Hrest IH]; intros out.
  - simpl. rewrite app_nil_r. reflexivity.
  - cbn [flat_map map]. rewrite fold_left_app.
    rewrite run_entry by lia. cbv zeta.
    rewrite Z2Nat.id by lia.
    replace ((Z.to_nat k =? 0)%nat) with false by (symmetry; apply Nat.eqb_neq; lia).
    replace (0 + k <? k) with false by (symmetry; apply Z.ltb_ge; lia).
    cbn [orb]. rewrite (Z.mod_small v) by lia.
    rewrite emitted_acc by lia. rewrite IH.
    rewrite <- app_assoc. reflexivity.
Qed.

(** * The packer *)

Lemma byte_of_eight_bits (b0 b1 b2 b3 b4 b5 b6 b7 : bool) :
  let b := bits_value [b0; b1; b2; b3; b4; b5; b6; b7] in
  is_byte b /\ entry_bits 8 b = [b0; b1; b2; b3; b4; b5; b6; b7].
Proof.
  destruct b0, b1, b2, b3, b4, b5, b6, b7; (split; [unfold is_byte; simpl; lia | reflexivity]).
Qed.

Lemma pack_bits_stream (n : nat) :
  forall bits, length bits = (8 * n)%nat ->
    Forall is_byte (pack_bits bits) /\ buffer_bits (pack_bits bits) = bits.
Proof.
  induction n as [| n IH]; intros bits Hlen.
  - destruct bits; [split; [constructor | reflexivity] | simpl in Hlen; lia].
  - do 8 (destruct bits as [| ? bits]; [simpl in Hlen; lia |]).
    destruct (IH bits) as [Hbytes Hbits]; [simpl in Hlen; lia |].
    cbn [pack_bits].
    destruct (byte_of_eight_bits b b0 b1 b2 b3 b4 b5 b6) as [Hb Hbits8].
    cbv zeta in Hb, Hbits8.
    split; [constructor; assumption |].
    unfold buffer_bits in *. cbn [flat_map]. rewrite Hbits8, Hbits. reflexivity.
Qed.

Lemma entry_bits_length (n : nat) (v : Z) : length (entry_bits n v) = n.
Proof. revert v. induction n; intros v; simpl; [reflexivity | rewrite IHn; reflexivity]. Qed.

Lemma entries_length (n : nat) (values : list Z) :
  length (flat_map (entry_bits n) values) = (n * length values)%nat.
Proof.
  induction values as [| v rest IH]; simpl; [lia |].
  rewrite length_app, entry_bits_length, IH. lia.
Qed.

(** What the loop returns on a packed buffer: every entry [v] comes back as
    [v * 256 / 4 ^ k]. *)
Lemma unpack_pack (k : Z) (values : list Z) :
  1 <= k ->
  Forall (fun v => 0 <= v < 2 ^ k) values ->
  (k * Z.of_nat (length values)) mod 8 = 0 ->
  unpack k (pack k values) = map (emitted k) values.
Proof.
  intros Hk Hall Hmod.
  assert (Hlen : exists n, length (flat_map (entry_bits (Z.to_nat k)) values) = (8 * n)%nat).
  { exists (Z.to_nat (k * Z.of_nat (length values) / 8)).
    rewrite entries_length.
    apply Nat2Z.inj. rewrite !Nat2Z.inj_mul, !Z2Nat.id; try lia.
    - change (Z.of_nat 8) with 8. Z.div_mod_to_equations. lia.
    - apply Z.div_pos; lia. }
  destruct Hlen as [n Hlen].
  destruct (pack_bits_stream n _ Hlen) as [Hbytes Hbits].
  unfold unpack, pack.
  rewrite unpack_loop_bits; try assumption; [| simpl; lia].
  rewrite Hbits. unfold unpacker_init. rewrite run_entries by assumption.
  reflexivity.
Qed.

Lemma emitted_four (v : Z) : emitted 4 v = v.
Proof. unfold emitted. change (4 ^ 4) with 256. apply Z.div_mul. lia. Qed.

(** At four bits per entry the loop inverts the packer. *)
Lemma unpack_pack_four (values : list Z) :
  Forall (fun v => 0 <= v < 16) values ->
  Z.of_nat (length values) mod 2 = 0 ->
  unpack 4 (pack 4 values) = values.
Proof.
  intros Hall Heven. rewrite unpack_pack; try lia.
  - rewrite <- (map_id values) at 2. apply map_ext. apply emitted_four.
  - exact Hall.
  - Z.div_mod_to_equations. lia.
Qed.

(** * The heap *)

Lemma nth_error_heap_put_other (h : Heap) (p q : loc) (c : option (list Z)) :
  p <> q -> nth_error (heap_put h p c) q = nth_error h q.
Proof.
  revert p q. induction h as [| x h IH]; intros p q Hne.
  - destruct p; reflexivity.
  - destruct p, q; simpl; try reflexivity; try congruence.
    apply IH. congruence.
Qed.

Lemma heap_get_put_other (h : Heap) (p q : loc) (c : option (list Z)) :
  p <> q -> heap_get (heap_put h p c) q = heap_get h q.
Proof. intros Hne. unfold heap_get. rewrite nth_error_heap_put_other by assumption. reflexivity. Qed.

Lemma heap_get_live (h : Heap) (p : loc) (buf : list Z) :
  heap_get h p = Some buf -> (p < length h)%nat.
Proof.
  unfold heap_get. intros H. apply nth_error_Some. destruct (nth_error h p); congruence.
Qed.

(** * The light loop *)

Lemma light_pair_byte (b : Z) :
  is_byte b -> light_pair b = (Z.land b 240, Z.shiftr b 4).
Proof.
  unfold is_byte, light_pair, u8. intros Hb.
  assert (H1 : 0 <= Z.land b 240 < 256).
  { assert (H0 : 0 <= Z.land b 240) by (apply Z.land_nonneg; lia).
    split; [assumption |].
    destruct (Z.eq_dec (Z.land b 240) 0) as [-> | Hne]; [lia |].
    change 256 with (2 ^ 8). apply Z.log2_lt_pow2; [lia |].
    pose proof (Z.log2_land b 240 ltac:(lia) ltac:(lia)) as Hlog.
    change (Z.log2 240) with 7 in Hlog. lia. }
  rewrite Z.shiftr_div_pow2 by lia. change (2 ^ 4) with 16.
  rewrite !Z.mod_small; [reflexivity | Z.div_mod_to_equations; lia | lia].
Qed.

Lemma light_loop_spec (n : nat) :
  forall i data light light',
    light_loop n i data light = Some light' ->
    exists added,
      light' = light ++ added /\ length added = (2 * n)%nat /\
      forall j, (j < n)%nat ->
        exists b, nth_error data (i + j) = Some b /\
                  nth_error added (2 * j) = Some (fst (light_pair b)) /\
                  nth_error added (2 * j + 1) = Some (snd (light_pair b)).
Proof.
  induction n as [| n IH]; intros i data light light' Hrun.
  - simpl in Hrun. injection Hrun as <-. exists []. rewrite app_nil_r.
    repeat split. intros j Hj. lia.
  - cbn [light_loop] in Hrun.
    destruct (nth_error data i) as [b |] eqn:Hb; [| discriminate].
    destruct (light_pair b) as [first second] eqn:Hpair.
    destruct (IH _ _ _ _ Hrun) as (added & -> & Hlen & Hnth).
    exists ([first; second] ++ added). split; [rewrite <- app_assoc; reflexivity |].
    split; [simpl; lia |].
    intros [| j] Hj.
    + exists b. rewrite Nat.add_0_r, Hpair. repeat split; try assumption; reflexivity.
    + destruct (Hnth j ltac:(lia)) as (b' & Hb' & H0 & H1).
      exists b'. replace (i + S j)%nat with (S i + j)%nat by lia.
      split; [assumption |].
      replace (2 * S j)%nat with (S (S (2 * j))) by lia.
      replace (S (S (2 * j)) + 1)%nat with (S (S (2 * j + 1))) by lia.
      split; assumption.
Qed.

Lemma light_loop_total (n : nat) :
  forall i data light,
    (i + n <= length data)%nat -> exists light', light_loop n i data light = Some light'.
Proof.
  induction n as [| n IH]; intros i data light Hlen; [eexists; reflexivity |].
  cbn [light_loop].
  destruct (nth_error data i) as [b |] eqn:Hb.
  - destruct (light_pair b). apply IH. lia.
  - apply nth_error_None in Hb. lia.
Qed.

(** * Palette resolution and the voxel loop *)

Lemma resolve_cases (palette : list Z) (local g : Z) :
  0 <= local -> resolve palette local = Some g ->
  (palette = [] /\ g = local) \/
  (palette <> [] /\ nth_error palette (Z.to_nat local) = Some g).
Proof.
  intros Hl. unfold resolve. destruct palette as [| x palette]; simpl.
  - intros H. injection H as <-. left. auto.
  - destruct (Z.ltb_spec local 0); [lia |]. intros Hnth. right. split; [discriminate | assumption].
Qed.

Lemma decode_loop_spec (n : nat) :
  forall i palette locals voxels voxels',
    decode_loop n i palette locals voxels = Some voxels' ->
    exists added,
      voxels' = voxels ++ added /\ length added = n /\
      forall j, (j < n)%nat ->
        exists local g,
          nth_error locals (i + j) = Some local /\
          resolve palette local = Some g /\
          nth_error added j = Some (make_block g).
Proof.
  induction n as [| n IH]; intros i palette locals voxels voxels' Hrun.
  - simpl in Hrun. injection Hrun as <-. exists []. rewrite app_nil_r.
    repeat split. intros j Hj. lia.
  - cbn [decode_loop] in Hrun.
    destruct (nth_error locals i) as [local |] eqn:Hlocal; [| discriminate].
    destruct (resolve palette local) as [g |] eqn:Hg; [| discriminate].
    destruct (IH _ _ _ _ _ Hrun) as (added & -> & Hlen & Hnth).
    exists (make_block g :: added). split; [rewrite <- app_assoc; reflexivity |].
    split; [simpl; lia |].
    intros [| j] Hj.
    + exists local, g. rewrite Nat.add_0_r. auto.
    + destruct (Hnth j ltac:(lia)) as (l' & g' & H1 & H2 & H3).
      exists l', g'. replace (i + S j)%nat with (S i + j)%nat by lia. auto.
Qed.

Lemma decode_loop_reads (n : nat) :
  forall i palette locals voxels,
    decode_loop n i palette locals voxels <> None ->
    forall j, (j < n)%nat -> nth_error locals (i + j) <> None.
Proof.
  intros i palette locals voxels Hrun j Hj.
  destruct (decode_loop n i palette locals voxels) as [voxels' |] eqn:E; [| congruence].
  destruct (decode_loop_spec n _ _ _ _ _ E) as (added & _ & _ & Hnth).
  destruct (Hnth j Hj) as (l & g & H1 & _). congruence.
Qed.

(** * Section::Parse *)

Lemma unpack_bit_u16 (k : Z) (st : Unpacker) (b : Z) :
  Forall (fun v => 0 <= v < 65536) (blocks st) ->
  Forall (fun v => 0 <= v < 65536) (blocks (fst (unpack_bit k st b))).
Proof.
  intros Hall. unfold unpack_bit. destruct (_ >=? _); simpl; [| assumption].
  apply Forall_app. split; [assumption |].
  constructor; [| constructor]. unfold u16. apply Z.mod_pos_bound. lia.
Qed.

Lemma unpack_byte_loop_u16 (k : Z) (j : nat) :
  forall st b,
    Forall (fun v => 0 <= v < 65536) (blocks st) ->
    Forall (fun v => 0 <= v < 65536) (blocks (fst (unpack_byte_loop j k st b))).
Proof.
  induction j as [| j IH]; intros st b Hall; [assumption |].
  cbn [unpack_byte_loop].
  pose proof (unpack_bit_u16 k st b Hall) as Hbit.
  destruct (unpack_bit k st b) as [st' b']. apply IH. exact Hbit.
Qed.

Lemma unpack_loop_u16 (k : Z) (data : list Z) :
  forall st,
    Forall (fun v => 0 <= v < 65536) (blocks st) ->
    Forall (fun v => 0 <= v < 65536) (blocks (fst (unpack_loop k st data))).
Proof.
  induction data as [| b rest IH]; intros st Hall; [assumption |].
  cbn [unpack_loop].
  pose proof (unpack_byte_loop_u16 k 8 st b Hall) as Hbyte.
  fold (unpack_byte k st b) in Hbyte.
  destruct (unpack_byte k st b) as [st1 b'].
  specialize (IH st1 Hbyte).
  destruct (unpack_loop k st1 rest) as [st2 rest']. exact IH.
Qed.

Lemma unpack_u16 (k : Z) (data : list Z) :
  Forall (fun v => 0 <= v < 65536) (unpack k data).
Proof. apply unpack_loop_u16. constructor. Qed.

Lemma Parse_locals_inv (h : Heap) (s : Section) (p : loc)
    (locals light : list Z) (h1 : Heap) :
  Parse_locals h s p = Some (locals, light, h1) ->
  exists raw pLight dataLight,
    heap_get h p = Some raw /\
    (m_dataBlocksLen s <= length raw)%nat /\
    locals = unpack (m_bitsPerBlock s) (normalized s raw) /\
    h1 = heap_put h p
           (Some (snd (unpack_loop (m_bitsPerBlock s) unpacker_init (normalized s raw))
                  ++ skipn (m_dataBlocksLen s) raw)) /\
    m_dataLight s = Some pLight /\
    heap_get h1 pLight = Some dataLight /\
    light_loop LIGHT_BYTES 0 dataLight [] = Some light.
Proof.
  unfold Parse_locals, unpack. intros H.
  destruct (heap_get h p) as [raw |]; [| discriminate].
  destruct (Nat.ltb_spec (length raw) (m_dataBlocksLen s)) as [| Hlen]; [discriminate |].
  destruct (unpack_loop (m_bitsPerBlock s) unpacker_init (normalized s raw))
    as [st used] eqn:Hun.
  destruct (m_dataLight s) as [pLight |]; [| discriminate].
  destruct (heap_get _ pLight) as [dataLight |] eqn:Hget; [| discriminate].
  destruct (light_loop LIGHT_BYTES 0 dataLight []) as [l |] eqn:Hlight; [| discriminate].
  injection H as <- <- <-.
  exists raw, pLight, dataLight. rewrite Hun. cbn [fst snd]. repeat split; auto.
Qed.

Lemma Parse_locals_light (h : Heap) (s : Section) (p : loc)
    (locals light : list Z) (h1 : Heap) :
  Parse_locals h s p = Some (locals, light, h1) -> Z.of_nat (length light) = 4096.
Proof.
  intros H. destruct (Parse_locals_inv _ _ _ _ _ _ H) as (raw & pl & dl & _ & _ & _ & _ & _ & _ & Hl).
  destruct (light_loop_spec _ _ _ _ _ Hl) as (added & -> & Hlen & _).
  cbn [app]. rewrite Hlen. unfold LIGHT_BYTES. lia.
Qed.

(** The three ways [Parse] ends on a pending section. *)
Lemma Parse_pending (h : Heap) (s : Section) (p : loc) :
  m_dataBlocks s = Some p ->
  match Parse h s with
  | Returned (h', s') =>
      exists locals light h1 voxels,
        Parse_locals h s p = Some (locals, light, h1) /\
        decode_loop SECTION_VOLUME 0 (m_palette s) locals (m_blocks s) = Some voxels /\
        count_check light locals = true /\
        h' = heap_delete (heap_delete (heap_delete h1 (m_dataBlocks s)) (m_dataLight s))
               (m_dataSkyLight s) /\
        s' = mkSection (worldPosition s) 0 None None None voxels
               (m_palette s) (m_bitsPerBlock s)
  | Thrown code (h', s') =>
      exists locals light voxels,
        code = 118 /\
        Parse_locals h s p = Some (locals, light, h') /\
        decode_loop SECTION_VOLUME 0 (m_palette s) locals (m_blocks s) = Some voxels /\
        count_check light locals = false /\
        s' = mkSection (worldPosition s) (m_dataBlocksLen s) (m_dataBlocks s)
               (m_dataLight s) (m_dataSkyLight s) voxels (m_palette s) (m_bitsPerBlock s)
  | Undefined =>
      Parse_locals h s p = None \/
      exists locals light h1,
        Parse_locals h s p = Some (locals, light, h1) /\
        decode_loop SECTION_VOLUME 0 (m_palette s) locals (m_blocks s) = None
  end.
Proof.
  intros Hp. unfold Parse. rewrite Hp.
  destruct (Parse_locals h s p) as [[[locals light] h1] |]; [| left; reflexivity].
  destruct (decode_loop SECTION_VOLUME 0 (m_palette s) locals (m_blocks s)) as [voxels |] eqn:Hdec.
  - destruct (count_check light locals) eqn:Hcheck.
    + exists locals, light, h1, voxels. try rewrite Hp. auto.
    + exists locals, light, voxels. try rewrite Hp. auto.
  - right. exists locals, light, h1. auto.
Qed.

Lemma block_index_range (pos : Vector) :
  0 <= GetX pos < 16 -> 0 <= GetY pos < 16 -> 0 <= GetZ pos < 16 ->
  0 <= block_index pos < 4096.
Proof. unfold block_index. lia. Qed.

(** * The round trip through the packer *)

Lemma SECTION_VOLUME_pos : exists n, SECTION_VOLUME = S n.
Proof. exists (Nat.pred SECTION_VOLUME). unfold SECTION_VOLUME. lia. Qed.

(** From five bits per entry on, no buffer makes the loop emit the largest
    entry of the width. *)
Lemma unpack_never_max (k : Z) (data : list Z) :
  5 <= k -> ~ In (2 ^ k - 1) (unpack k data).
Proof.
  intros Hk Hin.
  destruct (unpack_emitted_ok k ltac:(lia) data _ Hin) as (_ & Hsmall & Hzero & _).
  assert (Hp : 2 ^ 5 <= 2 ^ k) by (apply Z.pow_le_mono_r; lia).
  change (2 ^ 5) with 32 in Hp.
  destruct (Z_le_gt_dec k 8) as [H8 | H8].
  - specialize (Hsmall H8).
    assert (2 ^ (8 - k) <= 2 ^ 3) by (apply Z.pow_le_mono_r; lia).
    change (2 ^ 3) with 8 in *. lia.
  - specialize (Hzero ltac:(lia)). lia.
Qed.

Lemma unpack_pack_ones (k : Z) :
  5 <= k ->
  unpack k (pack k (repeat 1 SECTION_VOLUME)) = repeat 0 SECTION_VOLUME.
Proof.
  intros Hk.
  assert (H2 : 2 < 2 ^ k).
  { apply Z.lt_le_trans with (2 ^ 5); [reflexivity | apply Z.pow_le_mono_r; lia]. }
  rewrite unpack_pack.
  - rewrite map_repeat. f_equal. unfold emitted. apply Z.div_small.
    split; [lia |]. apply Z.lt_le_trans with (4 ^ 5); [reflexivity |].
    apply Z.pow_le_mono_r; lia.
  - lia.
  - apply Forall_forall. intros v Hv. apply repeat_spec in Hv. subst v. lia.
  - rewrite repeat_length. unfold SECTION_VOLUME. rewrite Z2Nat.id by lia.
    replace (k * 4096) with (k * 512 * 8) by lia. apply Z.mod_mul. lia.
Qed.

(** * The range of the emitted values *)

Lemma full_range_four : full_range 4.
Proof.
  intros v Hv. change (2 ^ 4) with 16 in Hv.
  exists (pack 4 [v; 0]).
  assert (Hall : Forall (fun x => 0 <= x < 16) [v; 0]).
  { constructor; [lia | constructor; [lia | constructor]]. }
  split.
  - destruct (pack_bits_stream 1 (flat_map (entry_bits (Z.to_nat 4)) [v; 0])) as [Hb _];
      [reflexivity | exact Hb].
  - rewrite unpack_pack_four; [left; reflexivity | exact Hall | reflexivity].
Qed.

Lemma full_range_only_four (k : Z) : 1 <= k -> full_range k -> k = 4.
Proof.
  intros Hk Hfull.
  destruct (Z.eq_dec k 4) as [| Hne]; [assumption | exfalso].
  assert (Hp : 2 <= 2 ^ k).
  { change 2 with (2 ^ 1) at 1. apply Z.pow_le_mono_r; lia. }
  destruct (Hfull (2 ^ k - 1) ltac:(lia)) as (data & _ & Hin).
  destruct (unpack_emitted_ok k Hk data _ Hin) as (_ & Hsmall & Hzero & Hmul).
  destruct (Z_le_gt_dec 8 k) as [H8 | H8].
  - specialize (Hzero H8).
    assert (2 ^ 8 <= 2 ^ k) by (apply Z.pow_le_mono_r; lia).
    change (2 ^ 8) with 256 in *. lia.
  - assert (Hcases : k = 1 \/ k = 2 \/ k = 3 \/ k = 5 \/ k = 6 \/ k = 7) by lia.
    destruct Hcases as [-> | [-> | [-> | [-> | [-> | ->]]]]];
      first [ specialize (Hmul ltac:(lia)); vm_compute in Hmul; discriminate
            | specialize (Hsmall ltac:(lia)); vm_compute in Hsmall; discriminate ].
Qed.

(** * How many local indices [Parse] has to read from *)

Lemma endswap_loop_length (n : nat) :
  forall data, length (endswap_loop n data) = length data.
Proof.
  induction n as [| n IH]; intros data; [reflexivity |].
  cbn [endswap_loop]. unfold endswap.
  rewrite length_app, length_rev, IH.
  rewrite <- (firstn_skipn 8 data) at 3. rewrite length_app. reflexivity.
Qed.

Lemma normalized_length (s : Section) (raw : list Z) :
  (m_dataBlocksLen s <= length raw)%nat ->
  length (normalized s raw) = m_dataBlocksLen s.
Proof.
  intros Hlen. unfold normalized.
  rewrite endswap_loop_length, length_firstn. lia.
Qed.

Lemma Parse_locals_count (h : Heap) (s : Section) (p : loc)
    (locals light : list Z) (h1 : Heap) :
  1 <= m_bitsPerBlock s ->
  Parse_locals h s p = Some (locals, light, h1) ->
  Z.of_nat (length locals)
  = 8 * Z.of_nat (m_dataBlocksLen s) / m_bitsPerBlock s.
Proof.
  intros Hk H.
  destruct (Parse_locals_inv _ _ _ _ _ _ H) as (raw & _ & _ & _ & Hlen & -> & _).
  rewrite unpack_length by assumption.
  rewrite normalized_length by assumption. reflexivity.
Qed.

(** * The consistency check *)

Lemma count_check_spec (light locals : list Z) :
  Z.of_nat (length light) = 4096 ->
  count_check light locals = true <->
  (length locals = Z.to_nat 4096 \/ length locals = Z.to_nat 4097).
Proof.
  intros Hl. unfold count_check. rewrite Hl, Z.eqb_eq.
  split; intros H; Z.div_mod_to_equations; lia.
Qed.

(** Within the construction contract a count of 4097 needs a width above 32. *)
Lemma count_4097_needs_wide (len k : Z) :
  0 <= len -> len mod 8 = 0 -> 1 <= k -> 8 * len / k = 4097 -> 33 <= k.
Proof.
  intros Hlen Hmod Hk Hcount.
  destruct (Z_le_gt_dec 33 k) as [| Hsmall]; [assumption | exfalso].
  assert (Hm : len = 8 * (len / 8)) by (Z.div_mod_to_equations; lia).
  set (m := len / 8) in *. clearbody m. subst len.
  assert (Hlo : 4097 * k <= 8 * (8 * m)).
  { rewrite <- Hcount. rewrite Z.mul_comm. apply Z.mul_div_le. lia. }
  assert (Hhi : 8 * (8 * m) < 4098 * k).
  { pose proof (Z.mul_succ_div_gt (8 * (8 * m)) k ltac:(lia)) as H.
    rewrite Hcount in H. lia. }
  lia.
Qed.

(** * Light unpacking *)

(** The run gets through lines 52-82 whenever the block buffer holds
    [m_dataBlocksLen] bytes and the light buffer 2048. *)
Lemma Parse_locals_total (h : Heap) (s : Section) (p pLight : loc)
    (raw dataLight : list Z) :
  heap_get h p = Some raw -> (m_dataBlocksLen s <= length raw)%nat ->
  m_dataLight s = Some pLight -> pLight <> p ->
  heap_get h pLight = Some dataLight -> (LIGHT_BYTES <= length dataLight)%nat ->
  exists light h1,
    Parse_locals h s p
    = Some (unpack (m_bitsPerBlock s) (normalized s raw), light, h1) /\
    light_loop LIGHT_BYTES 0 dataLight [] = Some light.
Proof.
  intros Hraw Hlen HpLight Hne Hget HlenL.
  destruct (light_loop_total LIGHT_BYTES 0 dataLight []) as [light Hloop]; [lia |].
  unfold Parse_locals, unpack. rewrite Hraw.
  destruct (Nat.ltb_spec (length raw) (m_dataBlocksLen s)) as [| _]; [lia |].
  destruct (unpack_loop (m_bitsPerBlock s) unpacker_init (normalized s raw))
    as [st used].
  rewrite HpLight, heap_get_put_other, Hget, Hloop by congruence.
  eexists. eexists. split; reflexivity.
Qed.

(** * The copy constructor *)

Lemma LIGHT_BYTES_pos : exists n, LIGHT_BYTES = S n.
Proof. exists (Nat.pred LIGHT_BYTES). unfold LIGHT_BYTES. lia. Qed.

Lemma read_bytes_null (h : Heap) : read_bytes h None LIGHT_BYTES = None.
Proof. destruct LIGHT_BYTES_pos as [n ->]. reflexivity. Qed.

Lemma read_bytes_live (h : Heap) (p : loc) (n : nat) (buf : list Z) :
  heap_get h p = Some buf -> (n <= length buf)%nat ->
  read_bytes h (Some p) n = Some (firstn n buf).
Proof.
  intros Hget Hlen. unfold read_bytes. destruct n as [| n]; [reflexivity |].
  rewrite Hget. destruct (Nat.leb_spec (S n) (length buf)); [reflexivity | lia].
Qed.

Lemma heap_get_app_old (h extra : Heap) (p : loc) (buf : list Z) :
  heap_get h p = Some buf -> heap_get (h ++ extra) p = Some buf.
Proof.
  intros Hget. pose proof (heap_get_live _ _ _ Hget) as Hlt.
  unfold heap_get in *. rewrite nth_error_app1 by assumption. exact Hget.
Qed.

Lemma heap_get_app_new (h : Heap) (c : option (list Z)) :
  heap_get (h ++ [c]) (length h) = c.
Proof.
  unfold heap_get. rewrite nth_error_app2 by lia. rewrite Nat.sub_diag.
  destruct c; reflexivity.
Qed.

(** A copy never carries voxels, and it is pending whenever it is made. *)
Lemma Section_copy_returned (h : Heap) (s : Section) (h' : Heap) (c : Section) :
  Section_copy h s = Returned (h', c) ->
  m_blocks c = [] /\ raw_present c = true.
Proof.
  unfold Section_copy. intros H.
  destruct (new_copy h (m_dataBlocks s) (m_dataBlocksLen s)) as [[h1 pb] |]; [| discriminate].
  destruct (new_copy h1 (m_dataLight s) LIGHT_BYTES) as [[h2 pl] |]; [| discriminate].
  destruct (m_dataSkyLight s) as [ps |].
  - destruct (new_copy h2 (Some ps) LIGHT_BYTES) as [[h3 ps'] |]; [| discriminate].
    injection H as _ <-. split; reflexivity.
  - injection H as _ <-. split; reflexivity.
Qed.

(** Copying a section whose light pointer is null, as it is once the section
    is decoded, reads 2048 bytes through that null pointer. *)
Lemma Section_copy_decoded (h : Heap) (s : Section) :
  m_dataLight s = None -> Section_copy h s = Undefined.
Proof.
  intros Hnull. unfold Section_copy.
  destruct (new_copy h (m_dataBlocks s) (m_dataBlocksLen s)) as [[h1 pb] |]; [| reflexivity].
  rewrite Hnull. unfold new_copy at 1. rewrite read_bytes_null. reflexivity.
Qed.

(** The pending half of C7: the copy of a pending section gets three fresh
    arrays holding the bytes of the original's, and the original's arrays are
    left as they were. *)
Lemma Section_copy_pending (h : Heap) (s : Section) (pb pl : loc)
    (rawB rawL : list Z) :
  m_dataBlocks s = Some pb -> heap_get h pb = Some rawB ->
  (m_dataBlocksLen s <= length rawB)%nat ->
  m_dataLight s = Some pl -> heap_get h pl = Some rawL ->
  (LIGHT_BYTES <= length rawL)%nat ->
  (forall ps, m_dataSkyLight s = Some ps ->
     exists rawS, heap_get h ps = Some rawS /\ (LIGHT_BYTES <= length rawS)%nat) ->
  exists h' c,
    Section_copy h s = Returned (h', c) /\
    m_dataBlocks c = Some (length h) /\
    m_dataLight c = Some (S (length h)) /\
    heap_get h' (length h) = Some (firstn (m_dataBlocksLen s) rawB) /\
    heap_get h' (S (length h)) = Some (firstn LIGHT_BYTES rawL) /\
    match m_dataSkyLight s with
    | Some ps =>
        m_dataSkyLight c = Some (S (S (length h))) /\
        exists rawS, heap_get h ps = Some rawS /\
                     heap_get h' (S (S (length h))) = Some (firstn LIGHT_BYTES rawS)
    | None => m_dataSkyLight c = None
    end /\
    (forall q buf, heap_get h q = Some buf ->
       heap_get h' q = Some buf /\ Some q <> m_dataBlocks c /\
       Some q <> m_dataLight c /\ Some q <> m_dataSkyLight c) /\
    m_dataBlocksLen c = m_dataBlocksLen s /\
    m_palette c = m_palette s /\ m_bitsPerBlock c = m_bitsPerBlock s /\
    worldPosition c = worldPosition s.
Proof.
  intros Hpb HrawB HlenB Hpl HrawL HlenL Hsky.
  unfold Section_copy. rewrite Hpb, Hpl.
  unfold new_copy at 1. rewrite (read_bytes_live _ _ _ _ HrawB HlenB).
  unfold heap_new. set (h1 := h ++ [Some (firstn (m_dataBlocksLen s) rawB)]).
  assert (Hlen1 : length h1 = S (length h)) by (subst h1; rewrite length_app; simpl; lia).
  unfold new_copy at 1.
  rewrite (read_bytes_live h1 pl LIGHT_BYTES rawL (heap_get_app_old _ _ _ _ HrawL) HlenL).
  unfold heap_new. set (h2 := h1 ++ [Some (firstn LIGHT_BYTES rawL)]).
  assert (Hlen2 : length h2 = S (S (length h))) by (subst h2; rewrite length_app; simpl; lia).
  assert (Hb2 : heap_get h2 (length h) = Some (firstn (m_dataBlocksLen s) rawB)).
  { subst h2. apply heap_get_app_old. subst h1. apply heap_get_app_new. }
  assert (Hl2 : heap_get h2 (S (length h)) = Some (firstn LIGHT_BYTES rawL)).
  { subst h2. rewrite <- Hlen1. apply heap_get_app_new. }
  assert (Hold2 : forall q buf, heap_get h q = Some buf -> heap_get h2 q = Some buf).
  { intros q buf Hq. subst h2 h1. do 2 apply heap_get_app_old. exact Hq. }
  destruct (m_dataSkyLight s) as [ps |] eqn:Hps.
  - destruct (Hsky ps eq_refl) as (rawS & HrawS & HlenS).
    unfold new_copy.
    rewrite (read_bytes_live h2 ps LIGHT_BYTES rawS (Hold2 _ _ HrawS) HlenS).
    unfold heap_new. rewrite Hlen1, Hlen2.
    eexists. eexists. split; [reflexivity |]. cbn [m_dataBlocks m_dataLight m_dataSkyLight
      m_dataBlocksLen m_palette m_bitsPerBlock worldPosition].
    repeat split; try reflexivity.
    + apply heap_get_app_old. exact Hb2.
    + apply heap_get_app_old. exact Hl2.
    + exists rawS. split; [assumption |]. rewrite <- Hlen2. apply heap_get_app_new.
    + apply heap_get_app_old. apply Hold2. assumption.
    + pose proof (heap_get_live _ _ _ H). intros E. injection E as E. lia.
    + pose proof (heap_get_live _ _ _ H). intros E. injection E as E. lia.
    + pose proof (heap_get_live _ _ _ H). intros E. injection E as E. lia.
  - rewrite Hlen1.
    eexists. eexists. split; [reflexivity |]. cbn [m_dataBlocks m_dataLight m_dataSkyLight
      m_dataBlocksLen m_palette m_bitsPerBlock worldPosition].
    repeat split; try reflexivity.
    + exact Hb2.
    + exact Hl2.
    + apply Hold2. assumption.
    + pose proof (heap_get_live _ _ _ H). intros E. injection E as E. lia.
    + pose proof (heap_get_live _ _ _ H). intros E. injection E as E. lia.
    + discriminate.
Qed.

(** * The representation invariant across the member functions *)

Lemma Section_new_returned (h : Heap) (position : Vector) (dataBlocks : option loc)
    (dataBlocksLength : nat) (dataLight dataSky : option loc) (bitsPerBlock : Z)
    (palette : list Z) (h' : Heap) (s : Section) :
  Section_new h position dataBlocks dataBlocksLength dataLight dataSky
    bitsPerBlock palette = Returned (h', s) ->
  m_blocks s = [] /\ raw_present s = true.
Proof.
  unfold Section_new. intros H.
  destruct (new_copy h dataBlocks dataBlocksLength) as [[h1 pb] |]; [| discriminate].
  destruct (new_copy h1 dataLight LIGHT_BYTES) as [[h2 pl] |]; [| discriminate].
  destruct dataSky as [ps |].
  - destruct (new_copy h2 (Some ps) LIGHT_BYTES) as [[h3 ps'] |]; [| discriminate].
    injection H as _ <-. split; reflexivity.
  - injection H as _ <-. split; reflexivity.
Qed.

Lemma exactly_one_pending (s : Section) :
  m_blocks s = [] -> raw_present s = true -> exactly_one s = true.
Proof. unfold exactly_one, voxels_present. intros -> ->. reflexivity. Qed.

Lemma Parse_decoded (h : Heap) (s : Section) :
  raw_present s = false -> Parse h s = Returned (h, s).
Proof.
  unfold raw_present, Parse. destruct (m_dataBlocks s); [discriminate | reflexivity].
Qed.

Lemma Parse_returned_invariant (h : Heap) (s : Section) (h' : Heap) (s' : Section) :
  exactly_one s = true -> Parse h s = Returned (h', s') ->
  exactly_one s' = true /\ raw_present s' = false.
Proof.
  intros Hinv Hparse.
  destruct (m_dataBlocks s) as [p |] eqn:Hp.
  - pose proof (Parse_pending h s p Hp) as Hcases. rewrite Hparse in Hcases.
    destruct Hcases as (locals & light & h1 & voxels & _ & Hdec & _ & _ & ->).
    destruct (decode_loop_spec _ _ _ _ _ _ Hdec) as (added & -> & Hlen & _).
    unfold exactly_one, raw_present, voxels_present in *. rewrite Hp in Hinv.
    cbn [m_dataBlocks m_blocks].
    destruct (m_blocks s); [| discriminate Hinv].
    destruct added as [| v added]; [| split; reflexivity].
    exfalso. unfold SECTION_VOLUME in Hlen. simpl length in Hlen. lia.
  - assert (Hraw : raw_present s = false) by (unfold raw_present; rewrite Hp; reflexivity).
    rewrite (Parse_decoded h s Hraw) in Hparse. injection Hparse as <- <-.
    split; assumption.
Qed.

Lemma Parse_thrown (h : Heap) (s : Section) (code : Z) (h' : Heap) (s' : Section) :
  Parse h s = Thrown code (h', s') ->
  code = 118 /\
  m_dataBlocks s' = m_dataBlocks s /\ m_dataLight s' = m_dataLight s /\
  m_dataSkyLight s' = m_dataSkyLight s /\ m_dataBlocksLen s' = m_dataBlocksLen s /\
  raw_present s' = true /\
  forall pos, GetBlock s' pos = Waits.
Proof.
  intros Hparse.
  destruct (m_dataBlocks s) as [p |] eqn:Hp.
  - pose proof (Parse_pending h s p Hp) as Hcases. rewrite Hparse in Hcases.
    destruct Hcases as (locals & light & voxels & -> & _ & _ & _ & ->).
    unfold raw_present, GetBlock. cbn [m_dataBlocks m_dataLight m_dataSkyLight m_dataBlocksLen].
    rewrite Hp. repeat split; reflexivity.
  - unfold Parse in Hparse. rewrite Hp in Hparse. discriminate.
Qed.

Lemma GetBlock_found (s : Section) (pos : Vector) (b : Block) :
  GetBlock s pos = Found b ->
  raw_present s = false /\
  nth_error (m_blocks s) (Z.to_nat (block_index pos)) = Some b.
Proof.
  unfold GetBlock, raw_present. destruct (m_dataBlocks s); [discriminate |].
  destruct (block_index pos <? 0); [discriminate |].
  destruct (nth_error (m_blocks s) (Z.to_nat (block_index pos))); [| discriminate].
  intros H. injection H as ->. auto.
Qed.

(** A local index outside a palette that is not empty is not detected: the
    run has no defined behaviour. *)
Lemma Parse_palette_out_of_range (h : Heap) (s : Section) (p : loc)
    (locals light : list Z) (h1 : Heap) (i : nat) (local : Z) :
  m_dataBlocks s = Some p ->
  Parse_locals h s p = Some (locals, light, h1) ->
  (i < SECTION_VOLUME)%nat -> nth_error locals i = Some local ->
  m_palette s <> [] -> Z.of_nat (length (m_palette s)) <= local ->
  Parse h s = Undefined.
Proof.
  intros Hp Hlocals Hi Hnth Hpal Hout.
  assert (Hdec : decode_loop SECTION_VOLUME 0 (m_palette s) locals (m_blocks s) = None).
  { destruct (decode_loop SECTION_VOLUME 0 (m_palette s) locals (m_blocks s))
      as [voxels |] eqn:E; [exfalso | reflexivity].
    destruct (decode_loop_spec _ _ _ _ _ _ E) as (added & _ & _ & Hall).
    destruct (Hall i Hi) as (l & g & Hl & Hg & _).
    cbn [Nat.add] in Hl. rewrite Hnth in Hl. injection Hl as <-.
    unfold resolve in Hg.
    destruct (m_palette s) as [| x palette] eqn:Epal; [congruence |].
    cbn [length Nat.ltb Nat.leb] in Hg.
    destruct (Z.ltb_spec local 0); [discriminate Hg |].
    assert (Hlt : (Z.to_nat local < length (x :: palette))%nat).
    { apply nth_error_Some. congruence. }
    lia. }
  unfold Parse. rewrite Hp, Hlocals, Hdec. reflexivity.
Qed.

(** * Runs of [Parse] that get to the check *)

Lemma decode_loop_total (n : nat) :
  forall i palette locals voxels,
    (i + n <= length locals)%nat ->
    (forall v, In v locals -> exists g, resolve palette v = Some g) ->
    exists added,
      decode_loop n i palette locals voxels = Some (voxels ++ added) /\
      length added = n.
Proof.
  induction n as [| n IH]; intros i palette locals voxels Hlen Hres.
  - exists []. rewrite app_nil_r. split; reflexivity.
  - cbn [decode_loop].
    destruct (nth_error locals i) as [local |] eqn:Hlocal.
    + destruct (Hres local (nth_error_In _ _ Hlocal)) as [g ->].
      destruct (IH (S i) palette locals (voxels ++ [make_block g])) as (added & -> & Hadded);
        [lia | assumption |].
      exists (make_block g :: added). rewrite <- app_assoc. split; [reflexivity |].
      simpl. lia.
    + apply nth_error_None in Hlocal. lia.
Qed.

(** Every emitted value is a valid index of a palette with at least
    [2 ^ (8 - bitsPerBlock)] entries. *)
Lemma unpack_resolves (k : Z) (data palette : list Z) (v : Z) :
  1 <= k ->
  palette = [] \/ (palette <> [] /\ 2 ^ (8 - k) <= Z.of_nat (length palette)) ->
  In v (unpack k data) ->
  exists g, resolve palette v = Some g.
Proof.
  intros Hk Hpal Hin.
  destruct (unpack_emitted_ok k Hk data v Hin) as (H0 & Hsmall & Hzero & _).
  unfold resolve. destruct Hpal as [-> | [Hne Hsize]]; [exists v; reflexivity |].
  destruct palette as [| x palette]; [congruence |].
  assert (Hv : (Z.to_nat v < length (x :: palette))%nat).
  { destruct (Z_le_gt_dec k 8) as [H8 | H8].
    - specialize (Hsmall H8). lia.
    - rewrite (Hzero ltac:(lia)). simpl. lia. }
  cbn [length Nat.ltb Nat.leb]. destruct (Z.ltb_spec v 0); [lia |].
  destruct (nth_error (x :: palette) (Z.to_nat v)) as [g |] eqn:E; [exists g; reflexivity |].
  apply nth_error_None in E. lia.
Qed.

(** On a pending section with its buffers in place, a width of at least one
    bit, at least 4096 entries in the block buffer and a palette that is empty
    or covers the emitted values, [Parse] gets to the check of line 88. *)
Lemma Parse_runs (h : Heap) (s : Section) (p pLight : loc) (raw dataLight : list Z) :
  m_dataBlocks s = Some p ->
  heap_get h p = Some raw -> (m_dataBlocksLen s <= length raw)%nat ->
  m_dataLight s = Some pLight -> pLight <> p ->
  heap_get h pLight = Some dataLight -> (LIGHT_BYTES <= length dataLight)%nat ->
  1 <= m_bitsPerBlock s ->
  4096 <= 8 * Z.of_nat (m_dataBlocksLen s) / m_bitsPerBlock s ->
  (m_palette s = [] \/
   (m_palette s <> [] /\
    2 ^ (8 - m_bitsPerBlock s) <= Z.of_nat (length (m_palette s)))) ->
  exists locals light h1 added,
    Parse_locals h s p = Some (locals, light, h1) /\
    length added = SECTION_VOLUME /\
    Parse h s =
      if count_check light locals
      then Returned (heap_delete (heap_delete (heap_delete h1 (m_dataBlocks s))
                                    (m_dataLight s)) (m_dataSkyLight s),
                     mkSection (worldPosition s) 0 None None None
                       (m_blocks s ++ added) (m_palette s) (m_bitsPerBlock s))
      else Thrown 118 (h1, mkSection (worldPosition s) (m_dataBlocksLen s)
                             (m_dataBlocks s) (m_dataLight s) (m_dataSkyLight s)
                             (m_blocks s ++ added) (m_palette s) (m_bitsPerBlock s)).
Proof.
  intros Hp Hraw Hlen HpLight Hne Hget HlenL Hk Hcount Hpal.
  destruct (Parse_locals_total h s p pLight raw dataLight)
    as (light & h1 & Hlocals & _); try assumption.
  pose proof (Parse_locals_count _ _ _ _ _ _ Hk Hlocals) as Hsize.
  destruct (decode_loop_total SECTION_VOLUME 0 (m_palette s)
              (unpack (m_bitsPerBlock s) (normalized s raw)) (m_blocks s))
    as (added & Hdec & Hadded).
  - unfold SECTION_VOLUME. lia.
  - intros v Hv. apply (unpack_resolves _ _ _ _ Hk Hpal Hv).
  - exists (unpack (m_bitsPerBlock s) (normalized s raw)), light, h1, added.
    split; [assumption | split; [assumption |]].
    unfold Parse. rewrite Hp, Hlocals, Hdec. reflexivity.
Qed.

Lemma Parse_returns (h : Heap) (s : Section) (p pLight : loc) (raw dataLight : list Z) :
  m_dataBlocks s = Some p ->
  heap_get h p = Some raw -> (m_dataBlocksLen s <= length raw)%nat ->
  m_dataLight s = Some pLight -> pLight <> p ->
  heap_get h pLight = Some dataLight -> (LIGHT_BYTES <= length dataLight)%nat ->
  1 <= m_bitsPerBlock s ->
  (m_palette s = [] \/
   (m_palette s <> [] /\
    2 ^ (8 - m_bitsPerBlock s) <= Z.of_nat (length (m_palette s)))) ->
  (8 * Z.of_nat (m_dataBlocksLen s) / m_bitsPerBlock s = 4096 \/
   8 * Z.of_nat (m_dataBlocksLen s) / m_bitsPerBlock s = 4097) ->
  exists h' s',
    Parse h s = Returned (h', s') /\
    m_dataBlocks s' = None /\ m_dataLight s' = None /\ m_dataSkyLight s' = None /\
    length (m_blocks s') = (length (m_blocks s) + SECTION_VOLUME)%nat.
Proof.
  intros Hp Hraw Hlen HpLight Hne Hget HlenL Hk Hpal Hcount.
  destruct (Parse_runs h s p pLight raw dataLight)
    as (locals & light & h1 & added & Hlocals & Hadded & Hparse); try assumption; [lia |].
  pose proof (Parse_locals_count _ _ _ _ _ _ Hk Hlocals) as Hsize.
  pose proof (Parse_locals_light _ _ _ _ _ _ Hlocals) as Hlight.
  assert (Hcheck : count_check light locals = true).
  { apply count_check_spec; [assumption | lia]. }
  rewrite Hcheck in Hparse.
  eexists. eexists. split; [exact Hparse |].
  cbn [m_dataBlocks m_dataLight m_dataSkyLight m_blocks].
  rewrite length_app, Hadded. auto.
Qed.

Lemma Parse_throws (h : Heap) (s : Section) (p pLight : loc) (raw dataLight : list Z) :
  m_dataBlocks s = Some p ->
  heap_get h p = Some raw -> (m_dataBlocksLen s <= length raw)%nat ->
  m_dataLight s = Some pLight -> pLight <> p ->
  heap_get h pLight = Some dataLight -> (LIGHT_BYTES <= length dataLight)%nat ->
  1 <= m_bitsPerBlock s ->
  (m_palette s = [] \/
   (m_palette s <> [] /\
    2 ^ (8 - m_bitsPerBlock s) <= Z.of_nat (length (m_palette s)))) ->
  4098 <= 8 * Z.of_nat (m_dataBlocksLen s) / m_bitsPerBlock s ->
  exists h' s',
    Parse h s = Thrown 118 (h', s') /\
    m_dataBlocks s' = Some p /\
    length (m_blocks s') = (length (m_blocks s) + SECTION_VOLUME)%nat.
Proof.
  intros Hp Hraw Hlen HpLight Hne Hget HlenL Hk Hpal Hcount.
  destruct (Parse_runs h s p pLight raw dataLight)
    as (locals & light & h1 & added & Hlocals & Hadded & Hparse); try assumption; [lia |].
  pose proof (Parse_locals_count _ _ _ _ _ _ Hk Hlocals) as Hsize.
  pose proof (Parse_locals_light _ _ _ _ _ _ Hlocals) as Hlight.
  assert (Hcheck : count_check light locals = false).
  { destruct (count_check light locals) eqn:E; [| reflexivity].
    apply count_check_spec in E; [lia | assumption]. }
  rewrite Hcheck in Hparse.
  eexists. eexists. split; [exact Hparse |].
  cbn [m_dataBlocks m_blocks]. rewrite length_app, Hadded. auto.
Qed.

(** * The sample sections *)

Lemma sample_light_length : length sample_light = LIGHT_BYTES.
Proof. apply repeat_length. Qed.

Lemma ramp_length (n : nat) : length (ramp n) = n.
Proof. unfold ramp. rewrite length_map, length_seq. reflexivity. Qed.

Lemma new_copy_live (h : Heap) (p : loc) (n : nat) (buf : list Z) :
  heap_get h p = Some buf -> n = length buf ->
  new_copy h (Some p) n = Some (h ++ [Some buf], length h).
Proof.
  intros Hget ->. unfold new_copy.
  rewrite (read_bytes_live h p (length buf) buf Hget (le_n _)).
  rewrite firstn_all. reflexivity.
Qed.

(** What the constructor builds from the caller's three buffers. *)
Lemma construct_spec (dataBlocks : list Z) (bits : Z) (palette : list Z) :
  Section_new (caller_heap dataBlocks) sample_position (Some 0%nat)
    (length dataBlocks) (Some 1%nat) (Some 2%nat) bits palette
  = Returned (construct dataBlocks bits palette) /\
  construct dataBlocks bits palette
  = (caller_heap dataBlocks ++ [Some dataBlocks; Some sample_light; Some sample_sky],
     mkSection sample_position (length dataBlocks) (Some 3%nat) (Some 4%nat)
       (Some 5%nat) [] palette bits).
Proof.
  assert (Hnew : Section_new (caller_heap dataBlocks) sample_position (Some 0%nat)
                   (length dataBlocks) (Some 1%nat) (Some 2%nat) bits palette
                 = Returned
                     (caller_heap dataBlocks
                        ++ [Some dataBlocks; Some sample_light; Some sample_sky],
                      mkSection sample_position (length dataBlocks) (Some 3%nat)
                        (Some 4%nat) (Some 5%nat) [] palette bits)).
  { unfold Section_new.
    rewrite (new_copy_live (caller_heap dataBlocks) 0%nat _ dataBlocks eq_refl eq_refl).
    rewrite (new_copy_live (caller_heap dataBlocks ++ [Some dataBlocks]) 1%nat
               LIGHT_BYTES sample_light eq_refl (eq_sym sample_light_length)).
    rewrite (new_copy_live ((caller_heap dataBlocks ++ [Some dataBlocks])
                            ++ [Some sample_light]) 2%nat
               LIGHT_BYTES sample_sky eq_refl (eq_sym (repeat_length 255 LIGHT_BYTES))).
    reflexivity. }
  split; [| unfold construct; rewrite Hnew; reflexivity].
  unfold construct. rewrite Hnew. reflexivity.
Qed.

Lemma Parse_vectors_In (h : Heap) (s : Section) (p : loc)
    (locals light : list Z) (h1 : Heap) (v : list Z) :
  Parse_locals h s p = Some (locals, light, h1) ->
  In v (Parse_vectors h s p) -> locals = v \/ light = v.
Proof.
  intros Hlocals Hin. unfold Parse_vectors in Hin. rewrite Hlocals in Hin.
  destruct Hin as [Hin | [Hin | []]]; auto.
Qed.

Lemma construct_runs (d : list Z) (k : Z) (palette : list Z) :
  1 <= k ->
  (palette = [] \/ (palette <> [] /\ 2 ^ (8 - k) <= Z.of_nat (length palette))) ->
  4096 <= 8 * Z.of_nat (length d) / k ->
  exists locals light h1 added,
    Parse_locals (fst (construct d k palette)) (snd (construct d k palette)) 3%nat
    = Some (locals, light, h1) /\
    Z.of_nat (length locals) = 8 * Z.of_nat (length d) / k /\
    Z.of_nat (length light) = 4096 /\
    length added = SECTION_VOLUME /\
    Parse (fst (construct d k palette)) (snd (construct d k palette)) =
      if count_check light locals
      then Returned (heap_delete (heap_delete (heap_delete h1 (Some 3%nat))
                                    (Some 4%nat)) (Some 5%nat),
                     mkSection sample_position 0 None None None added palette k)
      else Thrown 118 (h1, mkSection sample_position (length d) (Some 3%nat)
                             (Some 4%nat) (Some 5%nat) added palette k).
Proof.
  intros Hk Hpal Hcount.
  destruct (construct_spec d k palette) as [_ ->]. cbn [fst snd].
  set (h := caller_heap d ++ [Some d; Some sample_light; Some sample_sky]).
  set (s := mkSection sample_position (length d) (Some 3%nat) (Some 4%nat)
              (Some 5%nat) [] palette k).
  destruct (Parse_runs h s 3%nat 4%nat d sample_light)
    as (locals & light & h1 & added & Hlocals & Hadded & Hparse);
    [ reflexivity | reflexivity | apply le_n | reflexivity | discriminate
    | reflexivity | rewrite sample_light_length; apply le_n
    | assumption | assumption | assumption | ].
  exists locals, light, h1, added.
  split; [exact Hlocals |].
  split; [exact (Parse_locals_count h s 3%nat locals light h1 Hk Hlocals) |].
  split; [exact (Parse_locals_light h s 3%nat locals light h1 Hlocals) |].
  split; [exact Hadded | exact Hparse].
Qed.

(** The members of a constructed sample and the arrays they point to. *)
Lemma construct_fields (d : list Z) (k : Z) (palette : list Z) :
  let h := fst (construct d k palette) in
  let s := snd (construct d k palette) in
  m_dataBlocks s = Some 3%nat /\ m_dataLight s = Some 4%nat /\
  m_dataSkyLight s = Some 5%nat /\ m_blocks s = [] /\
  m_dataBlocksLen s = length d /\ m_bitsPerBlock s = k /\ m_palette s = palette /\
  heap_get h 3%nat = Some d /\ heap_get h 4%nat = Some sample_light /\
  heap_get h 5%nat = Some sample_sky /\ exactly_one s = true.
Proof.
  destruct (construct_spec d k palette) as [_ ->]. cbv zeta. cbn [fst snd].
  repeat split; reflexivity.
Qed.

Lemma pending_sample_fields :
  m_dataBlocks (snd pending_sample) = Some 3%nat /\
  m_dataLight (snd pending_sample) = Some 4%nat /\
  m_dataSkyLight (snd pending_sample) = Some 5%nat /\
  m_blocks (snd pending_sample) = [] /\
  m_dataBlocksLen (snd pending_sample) = length (ramp (Z.to_nat 2048)) /\
  m_bitsPerBlock (snd pending_sample) = 4 /\
  m_palette (snd pending_sample) = sample_palette /\
  heap_get (fst pending_sample) 3%nat = Some (ramp (Z.to_nat 2048)) /\
  heap_get (fst pending_sample) 4%nat = Some sample_light /\
  heap_get (fst pending_sample) 5%nat = Some sample_sky /\
  exactly_one (snd pending_sample) = true.
Proof. exact (construct_fields (ramp (Z.to_nat 2048)) 4 sample_palette). Qed.

Lemma long_sample_fields :
  m_dataBlocks (snd long_sample) = Some 3%nat /\
  m_dataLight (snd long_sample) = Some 4%nat /\
  m_dataSkyLight (snd long_sample) = Some 5%nat /\
  m_blocks (snd long_sample) = [] /\
  m_dataBlocksLen (snd long_sample) = length (ramp (Z.to_nat 2056)) /\
  m_bitsPerBlock (snd long_sample) = 4 /\
  m_palette (snd long_sample) = [] /\
  heap_get (fst long_sample) 3%nat = Some (ramp (Z.to_nat 2056)) /\
  heap_get (fst long_sample) 4%nat = Some sample_light /\
  heap_get (fst long_sample) 5%nat = Some sample_sky /\
  exactly_one (snd long_sample) = true.
Proof. exact (construct_fields (ramp (Z.to_nat 2056)) 4 []). Qed.

Lemma short_sample_fields :
  m_dataBlocks (snd short_sample) = Some 3%nat /\
  m_dataLight (snd short_sample) = Some 4%nat /\
  m_dataSkyLight (snd short_sample) = Some 5%nat /\
  m_blocks (snd short_sample) = [] /\
  m_dataBlocksLen (snd short_sample) = length (ramp 8) /\
  m_bitsPerBlock (snd short_sample) = 4 /\
  m_palette (snd short_sample) = [] /\
  heap_get (fst short_sample) 3%nat = Some (ramp 8) /\
  heap_get (fst short_sample) 4%nat = Some sample_light /\
  heap_get (fst short_sample) 5%nat = Some sample_sky /\
  exactly_one (snd short_sample) = true.
Proof. exact (construct_fields (ramp 8) 4 []). Qed.

Lemma sample_light_first :
  nth_error sample_light 0 = Some 171 /\ nth_error sample_sky 0 = Some 255.
Proof.
  unfold sample_light, sample_sky. destruct LIGHT_BYTES_pos as [n ->].
  split; reflexivity.
Qed.

Lemma sample_palette_covers :
  sample_palette = [] \/
  (sample_palette <> [] /\ 2 ^ (8 - 4) <= Z.of_nat (length sample_palette)).
Proof. right. split; [discriminate | vm_compute; discriminate]. Qed.

Lemma ramp_count (n k : Z) :
  0 <= n -> 8 * Z.of_nat (length (ramp (Z.to_nat n))) / k = 8 * n / k.
Proof. intros Hn. rewrite ramp_length, Z2Nat.id by assumption. reflexivity. Qed.

(** The pending sample is parsed to the decoded sample. *)
Lemma pending_sample_runs :
  exists locals light h1,
    Parse_locals (fst pending_sample) (snd pending_sample) 3%nat
    = Some (locals, light, h1) /\
    Z.of_nat (length locals) = 4096 /\
    Z.of_nat (length light) = 4096 /\
    Parse (fst pending_sample) (snd pending_sample) = Returned decoded_sample /\
    m_dataBlocks (snd decoded_sample) = None /\
    m_dataLight (snd decoded_sample) = None /\
    length (m_blocks (snd decoded_sample)) = SECTION_VOLUME.
Proof.
  unfold decoded_sample, pending_sample.
  destruct (construct_runs (ramp (Z.to_nat 2048)) 4 sample_palette)
    as (locals & light & h1 & added & Hlocals & Hsize & Hlight & Hadded & Hparse).
  - lia.
  - exact sample_palette_covers.
  - rewrite ramp_count by lia. vm_compute. discriminate.
  - rewrite ramp_count in Hsize by lia. change (8 * 2048 / 4) with 4096 in Hsize.
    assert (Hcheck : count_check light locals = true).
    { apply count_check_spec; [assumption | lia]. }
    rewrite Hcheck in Hparse. rewrite Hparse.
    cbn [outcome_value fst snd m_dataBlocks m_dataLight m_blocks].
    exists locals, light, h1.
    split; [exact Hlocals |]. split; [exact Hsize |]. split; [exact Hlight |].
    split; [reflexivity |]. split; [reflexivity |]. split; [reflexivity | exact Hadded].
Qed.

(** The long sample makes [Parse] throw with 4096 voxels appended. *)
Lemma long_sample_runs :
  exists locals light h1 h' s',
    Parse_locals (fst long_sample) (snd long_sample) 3%nat
    = Some (locals, light, h1) /\
    Z.of_nat (length locals) = 4112 /\
    Z.of_nat (length light) = 4096 /\
    Parse (fst long_sample) (snd long_sample) = Thrown 118 (h', s') /\
    m_dataBlocks s' = Some 3%nat /\
    length (m_blocks s') = SECTION_VOLUME.
Proof.
  unfold long_sample.
  destruct (construct_runs (ramp (Z.to_nat 2056)) 4 [])
    as (locals & light & h1 & added & Hlocals & Hsize & Hlight & Hadded & Hparse).
  - lia.
  - left. reflexivity.
  - rewrite ramp_count by lia. vm_compute. discriminate.
  - rewrite ramp_count in Hsize by lia. change (8 * 2056 / 4) with 4112 in Hsize.
    assert (Hcheck : count_check light locals = false).
    { destruct (count_check light locals) eqn:E; [| reflexivity].
      apply count_check_spec in E; [lia | assumption]. }
    rewrite Hcheck in Hparse.
    exists locals, light, h1. eexists. eexists.
    split; [exact Hlocals |]. split; [exact Hsize |]. split; [exact Hlight |].
    split; [exact Hparse |]. cbn [m_dataBlocks m_blocks].
    split; [reflexivity | exact Hadded].
Qed.

(** The odd sample is parsed without a throw although it has 4097 entries. *)
Lemma odd_sample_runs :
  exists locals light h1 h' s',
    Parse_locals (fst odd_sample) (snd odd_sample) 3%nat
    = Some (locals, light, h1) /\
    Z.of_nat (length locals) = 4097 /\
    Z.of_nat (length light) = 4096 /\
    Parse (fst odd_sample) (snd odd_sample) = Returned (h', s').
Proof.
  unfold odd_sample.
  destruct (construct_runs (ramp (Z.to_nat 4097)) 8 [])
    as (locals & light & h1 & added & Hlocals & Hsize & Hlight & _ & Hparse).
  - lia.
  - left. reflexivity.
  - rewrite ramp_count by lia. vm_compute. discriminate.
  - rewrite ramp_count in Hsize by lia. change (8 * 4097 / 8) with 4097 in Hsize.
    assert (Hcheck : count_check light locals = true).
    { apply count_check_spec; [assumption | lia]. }
    rewrite Hcheck in Hparse.
    exists locals, light, h1. eexists. eexists.
    split; [exact Hlocals |]. split; [exact Hsize |]. split; [exact Hlight |].
    exact Hparse.
Qed.

(** A run whose vector of local indices is shorter than 4096 reads it out of
    range. *)
Lemma Parse_too_few_locals (h : Heap) (s : Section) (p : loc)
    (locals light : list Z) (h1 : Heap) :
  m_dataBlocks s = Some p ->
  Parse_locals h s p = Some (locals, light, h1) ->
  (length locals < SECTION_VOLUME)%nat ->
  Parse h s = Undefined.
Proof.
  intros Hp Hlocals Hshort. unfold Parse. rewrite Hp, Hlocals.
  destruct (decode_loop SECTION_VOLUME 0 (m_palette s) locals (m_blocks s))
    as [voxels |] eqn:E; [exfalso | reflexivity].
  apply (decode_loop_reads SECTION_VOLUME 0 (m_palette s) locals (m_blocks s)
           ltac:(congruence) (length locals) Hshort).
  apply nth_error_None. cbn [Nat.add]. apply le_n.
Qed.

(** * Bytes and nibbles *)

Lemma endswap_loop_Forall (P : Z -> Prop) (n : nat) :
  forall data, Forall P data -> Forall P (endswap_loop n data).
Proof.
  induction n as [| n IH]; intros data Hall; [assumption |].
  cbn [endswap_loop]. unfold endswap.
  rewrite <- (firstn_skipn 8 data) in Hall. apply Forall_app in Hall as [H1 H2].
  apply Forall_app. split; [apply Forall_rev; assumption | apply IH; assumption].
Qed.

Lemma normalized_bytes (s : Section) (raw : list Z) :
  Forall is_byte raw -> Forall is_byte (normalized s raw).
Proof.
  intros Hall. unfold normalized. apply endswap_loop_Forall.
  rewrite <- (firstn_skipn (m_dataBlocksLen s) raw) in Hall.
  apply Forall_app in Hall. apply Hall.
Qed.

Lemma ramp_bytes (n : nat) : Forall is_byte (ramp n).
Proof.
  unfold ramp. apply Forall_forall. intros b Hb. apply in_map_iff in Hb.
  destruct Hb as (i & <- & _). unfold is_byte. apply Z.mod_pos_bound. lia.
Qed.

Lemma entry_bits_testbit (n : nat) :
  forall v, entry_bits n v = map (fun i => Z.testbit v (Z.of_nat i)) (seq 0 n).
Proof.
  induction n as [| n IH]; intros v; [reflexivity |].
  cbn [entry_bits seq map]. rewrite IH, <- seq_shift, map_map.
  change (Z.of_nat 0) with 0. rewrite Z.bit0_odd. f_equal.
  apply map_ext. intros i. rewrite Z.div2_div, Z.div2_bits by lia.
  rewrite Nat2Z.inj_succ. reflexivity.
Qed.

Lemma byte_nibbles (b : Z) :
  entry_bits 8 b = entry_bits 4 (b mod 16) ++ entry_bits 4 (b / 16).
Proof.
  rewrite !entry_bits_testbit. cbn [seq map app].
  change 16 with (2 ^ 4).
  rewrite !Z.mod_pow2_bits_low by (simpl; lia).
  rewrite !Z.div_pow2_bits by (simpl; lia).
  reflexivity.
Qed.

Lemma buffer_bits_nibbles (data : list Z) :
  buffer_bits data
  = flat_map (entry_bits (Z.to_nat 4)) (flat_map (fun b => [b mod 16; b / 16]) data).
Proof.
  unfold buffer_bits. change (Z.to_nat 4) with 4%nat.
  induction data as [| b rest IH]; [reflexivity |].
  cbn [flat_map app]. rewrite IH, byte_nibbles, <- app_assoc. reflexivity.
Qed.

(** At four bits per block a byte gives its low nibble and then its high
    nibble. *)
Lemma unpack_four_cons (b : Z) (rest : list Z) :
  is_byte b -> Forall is_byte rest ->
  unpack 4 (b :: rest) = b mod 16 :: b / 16 :: unpack 4 rest.
Proof.
  intros Hb Hrest.
  assert (Hnib : forall data, Forall is_byte data ->
            Forall (fun v => 0 <= v < 2 ^ 4) (flat_map (fun b => [b mod 16; b / 16]) data)).
  { intros data Hall. apply Forall_flat_map. eapply Forall_impl; [| exact Hall].
    intros x Hx. unfold is_byte in Hx. change (2 ^ 4) with 16.
    constructor; [| constructor; [| constructor]]; Z.div_mod_to_equations; lia. }
  assert (Hrun : forall data, Forall is_byte data ->
            unpack 4 data = map (emitted 4) (flat_map (fun b => [b mod 16; b / 16]) data)).
  { intros data Hall. unfold unpack.
    rewrite unpack_loop_bits; [| lia | exact Hall | simpl; lia].
    rewrite buffer_bits_nibbles. unfold unpacker_init.
    rewrite run_entries; [reflexivity | lia | apply Hnib; exact Hall]. }
  rewrite (Hrun (b :: rest)) by (constructor; assumption).
  rewrite (Hrun rest Hrest). cbn [flat_map app map].
  rewrite !emitted_four. reflexivity.
Qed.

Lemma unpack_four_nth (data : list Z) :
  Forall is_byte data ->
  forall j b, nth_error data j = Some b ->
    nth_error (unpack 4 data) (2 * j) = Some (b mod 16) /\
    nth_error (unpack 4 data) (2 * j + 1) = Some (b / 16).
Proof.
  intros Hall. induction Hall as [| a rest Ha Hrest IH]; intros j b Hj.
  - destruct j; discriminate Hj.
  - rewrite (unpack_four_cons a rest Ha Hrest).
    destruct j as [| j].
    + injection Hj as <-. split; reflexivity.
    + cbn [nth_error] in Hj. destruct (IH j b Hj) as [H0 H1].
      replace (2 * S j)%nat with (S (S (2 * j))) by lia.
      replace (S (S (2 * j)) + 1)%nat with (S (S (2 * j + 1))) by lia.
      cbn [nth_error]. split; assumption.
Qed.

(** The local index that the sample section holds for the position
    [(1, 2, 3)]: byte 280 of the byte-swapped buffer is byte 287 of the ramp,
    31, and index 561 is its high nibble. *)
Lemma pending_sample_local :
  nth_error (unpack (m_bitsPerBlock (snd pending_sample))
               (normalized (snd pending_sample) (ramp (Z.to_nat 2048))))
    (Z.to_nat (2 * 256 + 3 * 16 + 1)) = Some 1.
Proof.
  destruct pending_sample_fields as (_ & _ & _ & _ & Hlen & Hk & _).
  rewrite Hk.
  assert (Hbyte : nth_error (normalized (snd pending_sample) (ramp (Z.to_nat 2048))) 280
                  = Some 31).
  { unfold normalized. rewrite Hlen, ramp_length. vm_compute. reflexivity. }
  destruct (unpack_four_nth _ (normalized_bytes (snd pending_sample) _
                                 (ramp_bytes (Z.to_nat 2048))) 280%nat 31 Hbyte)
    as [_ Hhigh].
  exact Hhigh.
Qed.

(** * The claims *)

(** C1.  After a successful [Parse] of a pending section whose voxel vector
    was still empty and whose width is one for which the shift of line 67 is
    defined (1 to 32 bits per block), [GetBlock] at a local position with
    coordinates in [0, 16) does not wait: it returns the element of
    [m_blocks] at index [y * 256 + z * 16 + x], and that voxel is
    [(g >> 4, g & 0xF)], where [g] is the palette entry at the local index
    the bit-unpacker emitted at that position when the palette is not empty,
    and that local index itself when the palette is empty. *)
Theorem GetBlock_after_Parse (h : Heap) (s : Section) (p : loc)
    (h' : Heap) (s' : Section) (pos : Vector) :
  m_dataBlocks s = Some p ->
  m_blocks s = [] ->
  1 <= m_bitsPerBlock s <= 32 ->
  Parse h s = Returned (h', s') ->
  0 <= GetX pos < 16 -> 0 <= GetY pos < 16 -> 0 <= GetZ pos < 16 ->
  exists raw i g,
    heap_get h p = Some raw /\
    nth_error (unpack (m_bitsPerBlock s) (normalized s raw))
      (Z.to_nat (GetY pos * 256 + GetZ pos * 16 + GetX pos)) = Some i /\
    resolve (m_palette s) i = Some g /\
    ((m_palette s = [] /\ g = i) \/
     (m_palette s <> [] /\ nth_error (m_palette s) (Z.to_nat i) = Some g)) /\
    nth_error (m_blocks s') (Z.to_nat (GetY pos * 256 + GetZ pos * 16 + GetX pos))
      = Some (mkBlock (Z.shiftr g 4) (Z.land g 15)) /\
    GetBlock s' pos = Found (mkBlock (Z.shiftr g 4) (Z.land g 15)).
Proof.
  intros Hp Hempty Hwidth Hparse Hx Hy Hz.
  pose proof (block_index_range pos Hx Hy Hz) as Hidx.
  pose proof (Parse_pending h s p Hp) as Hcases. rewrite Hparse in Hcases.
  destruct Hcases as (locals & light & h1 & voxels & Hlocals & Hdec & _ & _ & ->).
  destruct (Parse_locals_inv _ _ _ _ _ _ Hlocals) as (raw & _ & _ & Hraw & _ & -> & _).
  rewrite Hempty in Hdec.
  destruct (decode_loop_spec _ _ _ _ _ _ Hdec) as (added & -> & _ & Hnth).
  destruct (Hnth (Z.to_nat (block_index pos))) as (i & g & Hi & Hg & Hvoxel).
  { unfold SECTION_VOLUME. lia. }
  cbn [Nat.add app] in *.
  assert (Hnonneg : 0 <= i).
  { pose proof (unpack_u16 (m_bitsPerBlock s) (normalized s raw)) as Hall.
    rewrite Forall_forall in Hall. apply nth_error_In in Hi. apply Hall in Hi. lia. }
  assert (Hget : GetBlock (mkSection (worldPosition s) 0 None None None added
                             (m_palette s) (m_bitsPerBlock s)) pos
                 = Found (make_block g)).
  { unfold GetBlock. cbn [m_dataBlocks m_blocks].
    destruct (Z.ltb_spec (block_index pos) 0); [lia |].
    rewrite Hvoxel. reflexivity. }
  unfold block_index in Hi, Hvoxel.
  exists raw, i, g. repeat split; try assumption.
  apply resolve_cases; assumption.
Qed.

Lemma GetBlock_after_Parse_witness :
  nth_error (m_blocks (snd decoded_sample)) 561 = Some (mkBlock 1 3) /\
  GetBlock (snd decoded_sample) (mkVector 1 2 3) = Found (mkBlock 1 3).
Proof.
  destruct pending_sample_fields as (Hp & _ & _ & Hb & _ & Hk & Hpal & Hraw & _).
  destruct (GetBlock_after_Parse (fst pending_sample) (snd pending_sample) 3%nat
              (fst decoded_sample) (snd decoded_sample) (mkVector 1 2 3))
    as (raw & i & g & Hraw' & Hi & Hg & _ & Hnth & Hget).
  - exact Hp.
  - exact Hb.
  - rewrite Hk. lia.
  - destruct pending_sample_runs as (l & li & hh & _ & _ & _ & -> & _).
    apply f_equal, surjective_pairing.
  - cbn [GetX]. lia.
  - cbn [GetY]. lia.
  - cbn [GetZ]. lia.
  - rewrite Hraw in Hraw'. injection Hraw' as Hsame. subst raw.
    assert (Hi1 : Some i = Some 1) by (rewrite <- Hi; exact pending_sample_local).
    injection Hi1 as Hi1. subst i.
    rewrite Hpal in Hg. vm_compute in Hg. injection Hg as Hg. subst g.
    split; [exact Hnth | exact Hget].
Defined.

(** C2.  The round trip does not hold on the code.  For each of the widths 5,
    6, 8, 9, 12 and 16: no buffer whatever is unpacked to 4096 entries of value
    [2 ^ bitsPerEntry - 1], so no packer can make that sequence come back; and
    with the packer of the specification, packing 4096 entries of value 1
    (each below [2 ^ bitsPerEntry]) and running the bit-unpacking loop on the
    packed buffer gives 4096 zeros. *)
Theorem roundtrip_lost_above_four_bits :
  Forall (fun k =>
            (forall data, unpack k data <> repeat (2 ^ k - 1) SECTION_VOLUME) /\
            Forall (fun v => 0 <= v < 2 ^ k) (repeat 1 SECTION_VOLUME) /\
            unpack k (pack k (repeat 1 SECTION_VOLUME)) = repeat 0 SECTION_VOLUME /\
            repeat 0 SECTION_VOLUME <> repeat 1 SECTION_VOLUME)
         [5; 6; 8; 9; 12; 16].
Proof.
  assert (Hne : repeat 0 SECTION_VOLUME <> repeat 1 SECTION_VOLUME).
  { intros Heq. apply (f_equal (fun l => nth_error l 0)) in Heq.
    vm_compute in Heq. discriminate Heq. }
  assert (Hone : forall k, 5 <= k ->
            Forall (fun v => 0 <= v < 2 ^ k) (repeat 1 SECTION_VOLUME)).
  { intros k Hk. apply Forall_forall. intros v Hv. apply repeat_spec in Hv. subst v.
    split; [lia |]. apply Z.lt_le_trans with (2 ^ 5); [reflexivity |].
    apply Z.pow_le_mono_r; lia. }
  assert (Hmax : forall k, 5 <= k ->
            forall data, unpack k data <> repeat (2 ^ k - 1) SECTION_VOLUME).
  { intros k Hk data Heq. apply (unpack_never_max k data Hk).
    rewrite Heq. destruct SECTION_VOLUME_pos as [n ->]. left. reflexivity. }
  repeat (constructor;
          [split; [apply Hmax; lia |
           split; [apply Hone; lia |
           split; [apply unpack_pack_ones; lia | exact Hne]]] |]).
  constructor.
Qed.

(** C3, as the code has it.  The constructor builds a pending section that
    satisfies the invariant; a [Parse] that returns takes a section satisfying
    the invariant to a decoded section satisfying it, and changes nothing on a
    decoded section; [GetBlock] answers only on a decoded section, from
    [m_blocks]; every copy the copy constructor makes satisfies the invariant;
    and when [Parse] throws, the code is 118 and the raw buffer pointers are
    the ones the section had, so that the section is still pending and
    [GetBlock] still waits.  A local index outside a palette that is not empty
    makes no run fail: the behaviour is not defined. *)
Theorem exactly_one_preserved :
  (forall h position dataBlocks n dataLight dataSky bits palette h' s,
      Section_new h position dataBlocks n dataLight dataSky bits palette
        = Returned (h', s) ->
      exactly_one s = true /\ raw_present s = true) /\
  (forall h s h' s',
      exactly_one s = true -> Parse h s = Returned (h', s') ->
      exactly_one s' = true /\ raw_present s' = false) /\
  (forall h s, raw_present s = false -> Parse h s = Returned (h, s)) /\
  (forall s pos b,
      GetBlock s pos = Found b ->
      raw_present s = false /\
      nth_error (m_blocks s) (Z.to_nat (block_index pos)) = Some b) /\
  (forall h s h' c,
      Section_copy h s = Returned (h', c) ->
      exactly_one c = true /\ raw_present c = true) /\
  (forall h s code h' s',
      Parse h s = Thrown code (h', s') ->
      code = 118 /\
      m_dataBlocks s' = m_dataBlocks s /\ m_dataLight s' = m_dataLight s /\
      m_dataSkyLight s' = m_dataSkyLight s /\
      m_dataBlocksLen s' = m_dataBlocksLen s /\
      raw_present s' = true /\
      forall pos, GetBlock s' pos = Waits) /\
  (forall h s p locals light h1 i local,
      m_dataBlocks s = Some p ->
      Parse_locals h s p = Some (locals, light, h1) ->
      (i < SECTION_VOLUME)%nat -> nth_error locals i = Some local ->
      m_palette s <> [] -> Z.of_nat (length (m_palette s)) <= local ->
      Parse h s = Undefined).
Proof.
  split; [| split; [| split; [| split; [| split; [| split]]]]].
  - intros h position dataBlocks n dataLight dataSky bits palette h' s H.
    destruct (Section_new_returned _ _ _ _ _ _ _ _ _ _ H) as [Hb Hr].
    split; [apply exactly_one_pending; assumption | assumption].
  - apply Parse_returned_invariant.
  - apply Parse_decoded.
  - apply GetBlock_found.
  - intros h s h' c H. destruct (Section_copy_returned _ _ _ _ H) as [Hb Hr].
    split; [apply exactly_one_pending; assumption | assumption].
  - apply Parse_thrown.
  - apply Parse_palette_out_of_range.
Qed.

Lemma exactly_one_preserved_witness :
  exactly_one (snd decoded_sample) = true /\ raw_present (snd decoded_sample) = false.
Proof.
  destruct exactly_one_preserved as (_ & Hparse & _).
  apply (Hparse (fst pending_sample) (snd pending_sample) (fst decoded_sample)).
  - apply pending_sample_fields.
  - destruct pending_sample_runs as (l & li & hh & _ & _ & _ & -> & _).
    apply f_equal, surjective_pairing.
Defined.

(** The claim C3 fails on a run that throws: the section built from 2056
    bytes at four bits per block satisfies the invariant, [Parse] throws on
    it, and what is left holds both the raw buffers and 4096 voxels that the
    section did not have before. *)
Lemma Parse_failure_keeps_voxels :
  exactly_one (snd long_sample) = true /\
  exists h' s',
    Parse (fst long_sample) (snd long_sample) = Thrown 118 (h', s') /\
    exactly_one s' = false /\ raw_present s' = true /\
    length (m_blocks s') = Z.to_nat 4096 /\
    m_blocks s' <> m_blocks (snd long_sample).
Proof.
  split; [apply long_sample_fields |].
  destruct long_sample_runs as (l & li & hh & h' & s' & _ & _ & _ & Hparse & Hraw & Hlen).
  exists h', s'. split; [exact Hparse |].
  assert (Hvoxels : voxels_present s' = true).
  { unfold voxels_present. destruct (m_blocks s'); [| reflexivity].
    exfalso. unfold SECTION_VOLUME in Hlen. simpl length in Hlen. lia. }
  unfold exactly_one, raw_present. rewrite Hvoxels, Hraw.
  repeat split; try reflexivity; [exact Hlen |].
  destruct long_sample_fields as (_ & _ & _ & -> & _).
  intros E. rewrite E in Hlen.
  unfold SECTION_VOLUME in Hlen. simpl length in Hlen. lia.
Qed.

(** C4, as the code has it.  On a pending section whose block buffer holds
    [m_dataBlocksLen] bytes and whose light buffer holds 2048 bytes, the light
    loop of [Parse] produces exactly 4096 values: the byte [b] at position [i]
    gives [b & 0xF0] at position [2 * i] and [b >> 4] at position [2 * i + 1].
    The sky-light buffer is not unpacked: the two vectors the run builds are
    the same whatever that buffer holds. *)
Theorem Parse_light_unpacking (h : Heap) (s : Section) (p pLight : loc)
    (raw dataLight : list Z) :
  heap_get h p = Some raw -> (m_dataBlocksLen s <= length raw)%nat ->
  m_dataLight s = Some pLight -> pLight <> p ->
  heap_get h pLight = Some dataLight -> length dataLight = LIGHT_BYTES ->
  Forall is_byte dataLight ->
  exists locals light h1,
    Parse_locals h s p = Some (locals, light, h1) /\
    Z.of_nat (length light) = 4096 /\
    (forall i, (i < LIGHT_BYTES)%nat ->
       exists b,
         nth_error dataLight i = Some b /\
         nth_error light (2 * i) = Some (Z.land b 0xF0) /\
         nth_error light (2 * i + 1) = Some (Z.shiftr b 4)) /\
    (forall pSky sky,
       m_dataSkyLight s = Some pSky -> pSky <> p -> pSky <> pLight ->
       exists h1',
         Parse_locals (heap_put h pSky (Some sky)) s p = Some (locals, light, h1')).
Proof.
  intros Hraw Hlen HpLight Hne Hget HlenL Hbytes.
  destruct (Parse_locals_total h s p pLight raw dataLight) as (light & h1 & Hlocals & Hloop);
    try assumption; [lia |].
  exists (unpack (m_bitsPerBlock s) (normalized s raw)), light, h1.
  split; [exact Hlocals |].
  split; [apply (Parse_locals_light _ _ _ _ _ _ Hlocals) |].
  split.
  - intros i Hi.
    destruct (light_loop_spec _ _ _ _ _ Hloop) as (added & -> & _ & Hnth).
    destruct (Hnth i Hi) as (b & Hb & H0 & H1).
    exists b. cbn [Nat.add app] in *. split; [assumption |].
    assert (Hbyte : is_byte b).
    { rewrite Forall_forall in Hbytes. apply Hbytes. eapply nth_error_In. exact Hb. }
    rewrite light_pair_byte in H0, H1 by assumption. split; assumption.
  - intros pSky sky HpSky Hne1 Hne2.
    destruct (Parse_locals_total (heap_put h pSky (Some sky)) s p pLight raw dataLight)
      as (light' & h1' & Hlocals' & Hloop'); try assumption.
    + rewrite heap_get_put_other by congruence. assumption.
    + rewrite heap_get_put_other by congruence. assumption.
    + lia.
    + exists h1'. rewrite Hlocals'. congruence.
Qed.

Lemma Parse_light_unpacking_witness :
  exists locals light h1,
    Parse_locals (fst pending_sample) (snd pending_sample) 3%nat
    = Some (locals, light, h1) /\
    Z.of_nat (length light) = 4096 /\
    (forall i, (i < LIGHT_BYTES)%nat ->
       exists b,
         nth_error sample_light i = Some b /\
         nth_error light (2 * i) = Some (Z.land b 0xF0) /\
         nth_error light (2 * i + 1) = Some (Z.shiftr b 4)) /\
    (forall pSky sky,
       m_dataSkyLight (snd pending_sample) = Some pSky ->
       pSky <> 3%nat -> pSky <> 4%nat ->
       exists h1',
         Parse_locals (heap_put (fst pending_sample) pSky (Some sky))
           (snd pending_sample) 3%nat = Some (locals, light, h1')).
Proof.
  destruct pending_sample_fields
    as (Hp & Hl & _ & _ & Hlen & _ & _ & Hraw & Hlight & _).
  apply (Parse_light_unpacking (fst pending_sample) (snd pending_sample)
           3%nat 4%nat (ramp (Z.to_nat 2048)) sample_light).
  - exact Hraw.
  - rewrite Hlen. apply le_n.
  - exact Hl.
  - discriminate.
  - exact Hlight.
  - exact sample_light_length.
  - apply Forall_forall. intros b Hb. apply repeat_spec in Hb. subst b.
    unfold is_byte. lia.
Defined.

(** The claim C4 fails on its last part: on the pending sample, whose
    sky-light buffer is present, the light mapping of the sky-light bytes is
    none of the vectors [Parse] builds. *)
Lemma sky_light_is_not_unpacked :
  ~ sky_light_unpacked (fst pending_sample) (snd pending_sample) 3%nat.
Proof.
  destruct pending_sample_fields
    as (Hp & Hl & Hs & _ & Hlen & Hk & _ & Hraw & Hlight & Hsky & _).
  intros Hall.
  destruct (Hall 5%nat sample_sky Hs Hsky) as (skyLight & Hloop & Hin).
  assert (Hfirst : nth_error skyLight 0 = Some 240).
  { destruct (light_loop_spec _ _ _ _ _ Hloop) as (added & -> & _ & Hnth).
    destruct (Hnth 0%nat) as (b & Hb & H0 & _); [unfold LIGHT_BYTES; lia |].
    cbn [Nat.add] in Hb. rewrite (proj2 sample_light_first) in Hb.
    injection Hb as <-. exact H0. }
  destruct (Parse_locals_total (fst pending_sample) (snd pending_sample) 3%nat 4%nat
              (ramp (Z.to_nat 2048)) sample_light)
    as (light & h1 & Hlocals & Hlightloop);
    [ exact Hraw | rewrite Hlen; apply le_n | exact Hl | discriminate
    | exact Hlight | rewrite sample_light_length; apply le_n | ].
  destruct (Parse_vectors_In _ _ _ _ _ _ _ Hlocals Hin) as [Hvec | Hvec];
    clear Hin; rename Hvec into Hin.
  - assert (Hmem : In 240 (unpack (m_bitsPerBlock (snd pending_sample))
                             (normalized (snd pending_sample) (ramp (Z.to_nat 2048))))).
    { rewrite Hin. apply (nth_error_In _ 0). exact Hfirst. }
    rewrite Hk in Hmem.
    destruct (unpack_emitted_ok 4 ltac:(lia) _ 240 Hmem) as (_ & Hsmall & _).
    specialize (Hsmall ltac:(lia)). vm_compute in Hsmall. discriminate Hsmall.
  - destruct (light_loop_spec _ _ _ _ _ Hlightloop) as (added & Hadded & _ & Hnth).
    destruct (Hnth 0%nat) as (b & Hb & H0 & _); [unfold LIGHT_BYTES; lia |].
    cbn [Nat.add] in Hb. rewrite (proj1 sample_light_first) in Hb. injection Hb as <-.
    rewrite Hin in Hadded. rewrite Hadded in Hfirst. cbn [app] in Hfirst.
    change (2 * 0)%nat with 0%nat in H0. rewrite H0 in Hfirst.
    vm_compute in Hfirst. discriminate Hfirst.
Qed.

(** C5, as the code has it.  The light byte 0xAB is unpacked to the pair
    (0xA0, 0x0A): the high nibble stays in the high position for the first
    value, and the second value is the same high nibble shifted down; the low
    nibble 0xB is in neither. *)
Theorem light_pair_0xAB :
  light_pair 0xAB = (0xA0, 0x0A) /\
  light_loop 1 0 [0xAB] [] = Some [0xA0; 0x0A].
Proof. split; reflexivity. Qed.

(** The claim C5 fails: the pair is not (0xA0, 0xB0). *)
Lemma light_pair_0xAB_not_0xB0 : light_pair 0xAB <> (0xA0, 0xB0).
Proof. vm_compute. discriminate. Qed.

(** C6.  A run of [Parse] on a pending section that gets as far as the check
    throws exactly when [(light.size() + blocks.size()) / 2] is not 4096; the
    light vector always has 4096 elements, so the check passes exactly when
    the vector of local indices has 4096 or 4097 elements, and the section
    built from a 4097-byte block buffer at 8 bits per block decodes 4097 local
    indices and is parsed without a throw. *)
Theorem Parse_throws_on_combined_count :
  (forall h s p locals light h1,
      m_dataBlocks s = Some p ->
      Parse_locals h s p = Some (locals, light, h1) ->
      is_defined (Parse h s) = true ->
      Z.of_nat (length light) = 4096 /\
      (is_thrown (Parse h s) = true <->
       (Z.of_nat (length light) + Z.of_nat (length locals)) / 2 <> 4096) /\
      (is_thrown (Parse h s) = false <->
       (length locals = Z.to_nat 4096 \/ length locals = Z.to_nat 4097))) /\
  (exists locals light h1 h' s',
      Parse_locals (fst odd_sample) (snd odd_sample) 3%nat = Some (locals, light, h1) /\
      Z.of_nat (length locals) = 4097 /\
      Z.of_nat (length light) = 4096 /\
      Parse (fst odd_sample) (snd odd_sample) = Returned (h', s')).
Proof.
  split.
  - intros h s p locals light h1 Hp Hlocals Hdef.
    pose proof (Parse_locals_light _ _ _ _ _ _ Hlocals) as Hlight.
    pose proof (count_check_spec light locals Hlight) as Hspec.
    assert (Hthrown : is_thrown (Parse h s) = negb (count_check light locals)).
    { pose proof (Parse_pending h s p Hp) as Hcases.
      destruct (Parse h s) as [[h' s'] | code [h' s'] |]; [| | discriminate].
      - destruct Hcases as (l & li & hh & v & E & _ & Hc & _).
        rewrite Hlocals in E. injection E as <- <- <-. rewrite Hc. reflexivity.
      - destruct Hcases as (l & li & v & _ & E & _ & Hc & _).
        rewrite Hlocals in E. injection E as <- <- <-. rewrite Hc. reflexivity. }
    split; [assumption |]. rewrite Hthrown. split.
    + unfold count_check. rewrite negb_true_iff, Z.eqb_neq. reflexivity.
    + rewrite negb_false_iff. exact Hspec.
  - exact odd_sample_runs.
Qed.

Lemma Parse_throws_on_combined_count_witness :
  is_thrown (Parse (fst long_sample) (snd long_sample)) = true.
Proof.
  destruct Parse_throws_on_combined_count as [Hall _].
  destruct long_sample_runs
    as (locals & light & h1 & h' & s' & Hlocals & Hsize & Hlight & Hparse & _).
  destruct (Hall (fst long_sample) (snd long_sample) 3%nat locals light h1)
    as (_ & Hiff & _).
  - apply long_sample_fields.
  - exact Hlocals.
  - rewrite Hparse. reflexivity.
  - apply Hiff. rewrite Hlight, Hsize. vm_compute. discriminate.
Defined.

(** C7, the decoded half on the code.  The section decoded from the sample
    buffers holds 4096 voxels and no raw buffer, and copy-constructing it has
    no defined behaviour: 2048 bytes are read through the null light pointer.
    By [Section_copy_returned] no copy the constructor does make carries a
    voxel, and by [Section_copy_pending] the pending half of the claim holds. *)
Theorem Section_copy_loses_voxels :
  raw_present (snd decoded_sample) = false /\
  length (m_blocks (snd decoded_sample)) = Z.to_nat 4096 /\
  Section_copy (fst decoded_sample) (snd decoded_sample) = Undefined.
Proof.
  destruct pending_sample_runs as (l & li & hh & _ & _ & _ & _ & Hraw & Hlight & Hlen).
  split; [unfold raw_present; rewrite Hraw; reflexivity |].
  split; [exact Hlen |].
  apply Section_copy_decoded. exact Hlight.
Qed.

(** C9.  For every buffer and every width from 1 to 32 bits, the widths for
    which the shift of line 67 is defined, a value emitted by the
    bit-unpacking loop is below [2 ^ (8 - bitsPerEntry)] when the width is at
    most 8, hence below 256 whatever the width, and is 0 when the width is at
    least 8; the width 4 is the only one for which every value below
    [2 ^ bitsPerEntry] can be emitted. *)
Theorem unpack_emits_narrow (k : Z) :
  1 <= k <= 32 ->
  (forall data v, In v (unpack k data) ->
     0 <= v /\ (k <= 8 -> v < 2 ^ (8 - k)) /\ v < 256 /\ (8 <= k -> v = 0)) /\
  (full_range k <-> k = 4).
Proof.
  intros [Hk Hwidth]. split.
  - intros data v Hin.
    destruct (unpack_emitted_ok k Hk data v Hin) as (H0 & Hsmall & Hzero & _).
    repeat split; try assumption.
    destruct (Z_le_gt_dec 8 k) as [H8 | H8].
    + rewrite (Hzero H8). lia.
    + apply Z.lt_le_trans with (2 ^ (8 - k)); [apply Hsmall; lia |].
      change 256 with (2 ^ 8). apply Z.pow_le_mono_r; lia.
  - split; [apply full_range_only_four; assumption |].
    intros ->. apply full_range_four.
Qed.

Lemma unpack_emits_narrow_witness :
  (forall data v, In v (unpack 5 data) ->
     0 <= v /\ (5 <= 8 -> v < 2 ^ (8 - 5)) /\ v < 256 /\ (8 <= 5 -> v = 0)) /\
  (full_range 5 <-> 5 = 4).
Proof. apply (unpack_emits_narrow 5). lia. Defined.

(** C10.  [Parse] reads the elements 0 to 4095 of the vector of local
    indices whatever its size.  The vector has
    [floor (8 * m_dataBlocksLen / m_bitsPerBlock)] elements, so the reads are
    all in range exactly when that number is at least 4096, and a run with
    defined behaviour has them all in range.  The construction contract does
    not give that: the section built from an 8-byte block buffer at 4 bits
    per block has 16 local indices, index 16 is out of range, and [Parse] has
    no defined behaviour on it. *)
Theorem Parse_reads_4096_locals :
  (forall h s p locals light h1,
      1 <= m_bitsPerBlock s ->
      m_dataBlocks s = Some p ->
      Parse_locals h s p = Some (locals, light, h1) ->
      Z.of_nat (length locals)
      = 8 * Z.of_nat (m_dataBlocksLen s) / m_bitsPerBlock s /\
      ((forall i, (i < SECTION_VOLUME)%nat -> nth_error locals i <> None) <->
       4096 <= 8 * Z.of_nat (m_dataBlocksLen s) / m_bitsPerBlock s) /\
      (is_defined (Parse h s) = true ->
       forall i, (i < SECTION_VOLUME)%nat -> nth_error locals i <> None)) /\
  (Section_new (caller_heap (ramp 8)) sample_position (Some 0%nat) 8
     (Some 1%nat) (Some 2%nat) 4 [] = Returned short_sample /\
   (m_dataBlocksLen (snd short_sample) mod 8 = 0)%nat /\
   1 <= m_bitsPerBlock (snd short_sample) /\
   exists locals light h1,
     Parse_locals (fst short_sample) (snd short_sample) 3%nat
     = Some (locals, light, h1) /\
     length locals = 16%nat /\ nth_error locals 16 = None /\
     Parse (fst short_sample) (snd short_sample) = Undefined).
Proof.
  split.
  - intros h s p locals light h1 Hk Hp Hlocals.
    pose proof (Parse_locals_count _ _ _ _ _ _ Hk Hlocals) as Hcount.
    split; [assumption | split].
    + rewrite <- Hcount. split.
      * intros Hall.
        destruct (Nat.le_gt_cases SECTION_VOLUME (length locals)) as [Hle | Hgt].
        -- unfold SECTION_VOLUME in Hle. lia.
        -- exfalso. destruct locals as [| x locals].
           ++ apply (Hall 0%nat); [unfold SECTION_VOLUME; lia | reflexivity].
           ++ apply (Hall (length (x :: locals))); [assumption |].
              apply nth_error_None. lia.
      * intros Hle i Hi. apply nth_error_Some. unfold SECTION_VOLUME in Hi. lia.
    + intros Hdef.
      pose proof (Parse_pending h s p Hp) as Hcases.
      destruct (Parse h s) as [[h' s'] | code [h' s'] |]; [| | discriminate].
      * destruct Hcases as (l & li & hh & v & E & Hdec & _).
        rewrite Hlocals in E. injection E as <- <- <-.
        apply (decode_loop_reads SECTION_VOLUME 0 (m_palette s) locals (m_blocks s)).
        congruence.
      * destruct Hcases as (l & li & v & _ & E & Hdec & _).
        rewrite Hlocals in E. injection E as <- <- <-.
        apply (decode_loop_reads SECTION_VOLUME 0 (m_palette s) locals (m_blocks s)).
        congruence.
  - destruct short_sample_fields
      as (Hp & Hl & _ & _ & Hlen & Hk & _ & Hraw & Hlight & _).
    split; [exact (proj1 (construct_spec (ramp 8) 4 [])) |].
    split; [rewrite Hlen; reflexivity |].
    split; [rewrite Hk; lia |].
    destruct (Parse_locals_total (fst short_sample) (snd short_sample) 3%nat 4%nat
                (ramp 8) sample_light)
      as (light & h1 & Hlocals & _);
      [ exact Hraw | rewrite Hlen; apply le_n | exact Hl | discriminate
      | exact Hlight | rewrite sample_light_length; apply le_n | ].
    set (locals := unpack (m_bitsPerBlock (snd short_sample))
                     (normalized (snd short_sample) (ramp 8))) in *.
    pose proof (Parse_locals_count _ _ _ _ _ _ ltac:(rewrite Hk; lia) Hlocals) as Hsize.
    rewrite Hlen, Hk in Hsize. change (8 * Z.of_nat (length (ramp 8)) / 4) with 16 in Hsize.
    exists locals, light, h1. split; [exact Hlocals |].
    split; [lia |].
    split; [apply nth_error_None; lia |].
    apply (Parse_too_few_locals _ _ _ _ _ _ Hp Hlocals).
    unfold SECTION_VOLUME. lia.
Qed.

Lemma Parse_reads_4096_locals_witness :
  exists locals light h1,
    Parse_locals (fst pending_sample) (snd pending_sample) 3%nat
    = Some (locals, light, h1) /\
    forall i, (i < SECTION_VOLUME)%nat -> nth_error locals i <> None.
Proof.
  destruct Parse_reads_4096_locals as [Hall _].
  destruct pending_sample_fields as (Hp & _ & _ & _ & Hlen & Hk & _).
  destruct pending_sample_runs as (locals & light & h1 & Hlocals & _).
  exists locals, light, h1. split; [exact Hlocals |].
  destruct (Hall (fst pending_sample) (snd pending_sample) 3%nat locals light h1)
    as (_ & Hiff & _).
  - rewrite Hk. lia.
  - exact Hp.
  - exact Hlocals.
  - apply Hiff. rewrite Hlen, Hk, ramp_count by lia. vm_compute. discriminate.
Defined.

(** * Further properties of the member functions *)

(** * More on the heap *)

Lemma heap_get_put_same (h : Heap) (p : loc) (c : option (list Z)) :
  (p < length h)%nat -> heap_get (heap_put h p c) p = c.
Proof.
  unfold heap_get. revert p. induction h as [| x h IH]; intros p Hlt; [simpl in Hlt; lia |].
  destruct p; cbn [heap_put nth_error].
  - destruct c; reflexivity.
  - apply IH. simpl in Hlt. lia.
Qed.

Lemma heap_get_put_freed (h : Heap) (p : loc) : heap_get (heap_put h p None) p = None.
Proof.
  destruct (Nat.lt_ge_cases p (length h)) as [Hlt | Hge].
  - apply heap_get_put_same. assumption.
  - unfold heap_get.
    assert (Hnone : nth_error (heap_put h p None) p = None).
    { apply nth_error_None.
      assert (Hlen : length (heap_put h p None) = length h).
      { clear Hge. revert p. induction h as [| x h IH]; intros p; [destruct p; reflexivity |].
        destruct p; cbn [heap_put length]; [reflexivity | rewrite IH; reflexivity]. }
      lia. }
    rewrite Hnone. reflexivity.
Qed.

Lemma heap_put_length (h : Heap) (p : loc) (c : option (list Z)) :
  length (heap_put h p c) = length h.
Proof.
  revert p. induction h as [| x h IH]; intros p; [destruct p; reflexivity |].
  destruct p; cbn [heap_put length]; [reflexivity | rewrite IH; reflexivity].
Qed.

Lemma heap_delete_length (h : Heap) (p : option loc) :
  length (heap_delete h p) = length h.
Proof. destruct p; [apply heap_put_length | reflexivity]. Qed.

(** A freed cell stays freed, and [delete[]] touches no other cell. *)
Lemma heap_get_delete_none (h : Heap) (p : option loc) (q : loc) :
  heap_get h q = None -> heap_get (heap_delete h p) q = None.
Proof.
  intros Hq. destruct p as [l |]; [| exact Hq]. cbn [heap_delete].
  destruct (Nat.eq_dec l q) as [-> | Hne].
  - apply heap_get_put_freed.
  - rewrite heap_get_put_other by assumption. exact Hq.
Qed.

Lemma heap_get_delete_same (h : Heap) (q : loc) :
  heap_get (heap_delete h (Some q)) q = None.
Proof. apply heap_get_put_freed. Qed.

Lemma heap_get_delete_other (h : Heap) (p : option loc) (q : loc) :
  Some q <> p -> heap_get (heap_delete h p) q = heap_get h q.
Proof.
  intros Hne. destruct p as [l |]; [| reflexivity]. cbn [heap_delete].
  apply heap_get_put_other. congruence.
Qed.

(** * Parse twice *)

(** X1.  [Parse] is idempotent: once a run has returned, a second run on the
    section and heap it left returns at once (line 49) and changes neither. *)
Theorem Parse_idempotent (h : Heap) (s : Section) (h' : Heap) (s' : Section) :
  Parse h s = Returned (h', s') -> Parse h' s' = Returned (h', s').
Proof.
  intros Hparse. apply Parse_decoded.
  destruct (m_dataBlocks s) as [p |] eqn:Hp.
  - pose proof (Parse_pending h s p Hp) as Hcases. rewrite Hparse in Hcases.
    destruct Hcases as (locals & light & h1 & voxels & _ & _ & _ & _ & ->).
    reflexivity.
  - assert (Hraw : raw_present s = false) by (unfold raw_present; rewrite Hp; reflexivity).
    rewrite (Parse_decoded h s Hraw) in Hparse. injection Hparse as <- <-. exact Hraw.
Qed.

(** X2.  A run of [Parse] that returns has freed the block array, the light
    array and the sky-light array of the section (lines 91-97); every cell of
    the heap that is none of the three holds what it held before, and no
    array was allocated. *)
Theorem Parse_releases_raw_arrays (h : Heap) (s : Section) (p : loc)
    (h' : Heap) (s' : Section) :
  m_dataBlocks s = Some p ->
  Parse h s = Returned (h', s') ->
  heap_get h' p = None /\
  (forall q, m_dataLight s = Some q -> heap_get h' q = None) /\
  (forall q, m_dataSkyLight s = Some q -> heap_get h' q = None) /\
  (forall q, Some q <> m_dataBlocks s -> Some q <> m_dataLight s ->
             Some q <> m_dataSkyLight s -> heap_get h' q = heap_get h q) /\
  length h' = length h.
Proof.
  intros Hp Hparse.
  pose proof (Parse_pending h s p Hp) as Hcases. rewrite Hparse in Hcases.
  destruct Hcases as (locals & light & h1 & voxels & Hlocals & _ & _ & -> & _).
  destruct (Parse_locals_inv _ _ _ _ _ _ Hlocals) as (raw & pl & dl & _ & _ & _ & -> & _).
  rewrite Hp.
  split; [| split; [| split; [| split]]].
  - do 2 apply heap_get_delete_none. apply heap_get_delete_same.
  - intros q ->. apply heap_get_delete_none. apply heap_get_delete_same.
  - intros q ->. apply heap_get_delete_same.
  - intros q Hb Hl Hs.
    rewrite !heap_get_delete_other by assumption.
    apply heap_get_put_other. congruence.
  - rewrite !heap_delete_length. apply heap_put_length.
Qed.

Lemma Parse_idempotent_witness :
  Parse (fst decoded_sample) (snd decoded_sample)
  = Returned (fst decoded_sample, snd decoded_sample).
Proof.
  apply (Parse_idempotent (fst pending_sample) (snd pending_sample)).
  destruct pending_sample_runs as (l & li & hh & _ & _ & _ & -> & _).
  apply f_equal, surjective_pairing.
Defined.

Lemma Parse_releases_raw_arrays_witness :
  heap_get (fst decoded_sample) 3%nat = None /\
  (forall q, m_dataLight (snd pending_sample) = Some q ->
             heap_get (fst decoded_sample) q = None) /\
  (forall q, m_dataSkyLight (snd pending_sample) = Some q ->
             heap_get (fst decoded_sample) q = None) /\
  (forall q, Some q <> m_dataBlocks (snd pending_sample) ->
             Some q <> m_dataLight (snd pending_sample) ->
             Some q <> m_dataSkyLight (snd pending_sample) ->
             heap_get (fst decoded_sample) q = heap_get (fst pending_sample) q) /\
  length (fst decoded_sample) = length (fst pending_sample).
Proof.
  apply (Parse_releases_raw_arrays (fst pending_sample) (snd pending_sample) 3%nat
           (fst decoded_sample) (snd decoded_sample)).
  - apply pending_sample_fields.
  - destruct pending_sample_runs as (l & li & hh & _ & _ & _ & -> & _).
    apply f_equal, surjective_pairing.
Defined.

(** * What the bit loop leaves in the buffer *)

Lemma byte_shifted_out (b : Z) :
  is_byte b ->
  Nat.iter 8 (fun x => u8 (Z.shiftr x 1)) b = 0.
Proof.
  unfold is_byte. intros Hb. cbv [Nat.iter nat_rect u8].
  rewrite !Z.shiftr_div_pow2 by lia. change (2 ^ 1) with 2.
  Z.div_mod_to_equations. lia.
Qed.

Lemma unpack_byte_loop_snd (k : Z) (j : nat) :
  forall st b,
    snd (unpack_byte_loop j k st b) = Nat.iter j (fun x => u8 (Z.shiftr x 1)) b.
Proof.
  induction j as [| j IH]; intros st b; [reflexivity |].
  cbn [unpack_byte_loop].
  pose proof (unpack_bit_snd k st b) as Hsnd.
  destruct (unpack_bit k st b) as [st' b']. cbn [snd] in Hsnd. subst b'.
  rewrite IH. rewrite Nat.iter_succ_r. reflexivity.
Qed.

Lemma unpack_loop_snd (k : Z) (data : list Z) :
  Forall is_byte data ->
  forall st, snd (unpack_loop k st data) = repeat 0 (length data).
Proof.
  intros Hall. induction Hall as [| b rest Hb Hrest IH]; intros st; [reflexivity |].
  cbn [unpack_loop].
  pose proof (unpack_byte_loop_snd k 8 st b) as Hsnd.
  fold (unpack_byte k st b) in Hsnd.
  destruct (unpack_byte k st b) as [st1 b']. cbn [snd] in Hsnd.
  specialize (IH st1).
  destruct (unpack_loop k st1 rest) as [st2 rest']. cbn [snd] in *.
  rewrite Hsnd, byte_shifted_out, IH by assumption. reflexivity.
Qed.

(** The heap that a throwing run leaves: the block array holds zeros where
    the bit loop has read, and nothing else was written. *)
Lemma Parse_thrown_heap (h : Heap) (s : Section) (p : loc)
    (raw : list Z) (code : Z) (h' : Heap) (s' : Section) :
  m_dataBlocks s = Some p ->
  heap_get h p = Some raw ->
  Forall is_byte raw ->
  Parse h s = Thrown code (h', s') ->
  h' = heap_put h p
         (Some (repeat 0 (m_dataBlocksLen s) ++ skipn (m_dataBlocksLen s) raw)).
Proof.
  intros Hp Hraw Hbytes Hparse.
  pose proof (Parse_pending h s p Hp) as Hcases. rewrite Hparse in Hcases.
  destruct Hcases as (locals & light & voxels & _ & Hlocals & _).
  destruct (Parse_locals_inv _ _ _ _ _ _ Hlocals)
    as (raw' & pl & dl & Hraw' & Hlen & _ & -> & _).
  rewrite Hraw in Hraw'. injection Hraw' as <-.
  rewrite unpack_loop_snd by (apply normalized_bytes; assumption).
  rewrite normalized_length by assumption.
  reflexivity.
Qed.

(** X3.  A run of [Parse] that throws has already consumed the block array:
    the bit loop shifts every byte it reads out to zero (line 63) and the
    throw of line 89 comes before any [delete[]], so the array is still
    allocated, its first [m_dataBlocksLen] bytes are 0 and the bytes after
    them are untouched.  No other cell of the heap has changed. *)
Theorem Parse_throw_consumes_block_buffer (h : Heap) (s : Section) (p : loc)
    (raw : list Z) (code : Z) (h' : Heap) (s' : Section) :
  m_dataBlocks s = Some p ->
  heap_get h p = Some raw ->
  Forall is_byte raw ->
  Parse h s = Thrown code (h', s') ->
  heap_get h' p
  = Some (repeat 0 (m_dataBlocksLen s) ++ skipn (m_dataBlocksLen s) raw) /\
  (forall q, q <> p -> heap_get h' q = heap_get h q) /\
  length h' = length h.
Proof.
  intros Hp Hraw Hbytes Hparse.
  rewrite (Parse_thrown_heap h s p raw code h' s' Hp Hraw Hbytes Hparse).
  split; [| split].
  - apply heap_get_put_same. apply (heap_get_live _ _ _ Hraw).
  - intros q Hq. apply heap_get_put_other. congruence.
  - apply heap_put_length.
Qed.

Lemma Parse_throw_consumes_block_buffer_witness :
  exists h' s',
    Parse (fst long_sample) (snd long_sample) = Thrown 118 (h', s') /\
    heap_get h' 3%nat
    = Some (repeat 0 (m_dataBlocksLen (snd long_sample))
            ++ skipn (m_dataBlocksLen (snd long_sample)) (ramp (Z.to_nat 2056))) /\
    (forall q, q <> 3%nat -> heap_get h' q = heap_get (fst long_sample) q) /\
    length h' = length (fst long_sample).
Proof.
  destruct long_sample_runs as (l & li & hh & h' & s' & _ & _ & _ & Hparse & _).
  exists h', s'. split; [exact Hparse |].
  apply (Parse_throw_consumes_block_buffer (fst long_sample) (snd long_sample) 3%nat
           (ramp (Z.to_nat 2056)) 118 h' s').
  - apply long_sample_fields.
  - apply long_sample_fields.
  - apply ramp_bytes.
  - exact Hparse.
Defined.

(** * A section on which [Parse] threw *)

Lemma unpack_bit_zero (k : Z) (st : Unpacker) :
  t st = 0 -> Forall (fun v => v = 0) (blocks st) ->
  let r := unpack_bit k st 0 in
  t (fst r) = 0 /\ Forall (fun v => v = 0) (blocks (fst r)) /\ snd r = 0.
Proof.
  intros Ht Hall. unfold unpack_bit. rewrite Ht.
  change (Z.land 0 1 =? 0) with true. cbv iota.
  change (u16 (Z.lor 0 0)) with 0. change (u16 (Z.shiftr 0 1)) with 0.
  change (u8 (Z.shiftr 0 1)) with 0.
  destruct (bitPos st + 1 >=? k); cbn [fst snd t blocks].
  - split; [reflexivity | split; [| reflexivity]].
    apply Forall_app. split; [assumption |].
    constructor; [| constructor]. rewrite Z.shiftr_0_l. reflexivity.
  - split; [reflexivity | split; [assumption | reflexivity]].
Qed.

Lemma unpack_byte_loop_zero (k : Z) (j : nat) :
  forall st,
    t st = 0 -> Forall (fun v => v = 0) (blocks st) ->
    let r := unpack_byte_loop j k st 0 in
    t (fst r) = 0 /\ Forall (fun v => v = 0) (blocks (fst r)).
Proof.
  induction j as [| j IH]; intros st Ht Hall; [split; assumption |].
  cbn [unpack_byte_loop].
  destruct (unpack_bit_zero k st Ht Hall) as (Ht' & Hall' & Hb).
  destruct (unpack_bit k st 0) as [st' b']. cbn [fst snd] in *. subst b'.
  apply IH; assumption.
Qed.

Lemma unpack_loop_zero (k : Z) (data : list Z) :
  Forall (fun b => b = 0) data ->
  forall st,
    t st = 0 -> Forall (fun v => v = 0) (blocks st) ->
    let r := unpack_loop k st data in
    t (fst r) = 0 /\ Forall (fun v => v = 0) (blocks (fst r)).
Proof.
  intros Hdata. induction Hdata as [| b rest -> Hrest IH]; intros st Ht Hall;
    [split; assumption |].
  cbn [unpack_loop].
  pose proof (unpack_byte_loop_zero k 8 st Ht Hall) as Hbyte.
  fold (unpack_byte k st 0) in Hbyte.
  destruct (unpack_byte k st 0) as [st1 b']. cbn [fst] in Hbyte.
  destruct Hbyte as [Ht1 Hall1]. specialize (IH st1 Ht1 Hall1).
  destruct (unpack_loop k st1 rest) as [st2 rest']. exact IH.
Qed.

(** A buffer of zero bytes is unpacked to zeros only, whatever the width. *)
Lemma unpack_zero_buffer (k : Z) (data : list Z) :
  Forall (fun b => b = 0) data -> Forall (fun v => v = 0) (unpack k data).
Proof.
  intros Hdata. unfold unpack.
  apply (unpack_loop_zero k data Hdata unpacker_init); [reflexivity | constructor].
Qed.

Lemma resolve_zero (palette : list Z) : exists g, resolve palette 0 = Some g.
Proof.
  unfold resolve. destruct palette as [| x palette]; [exists 0 | exists x]; reflexivity.
Qed.

Lemma light_loop_needs (n : nat) (data light light' : list Z) :
  light_loop n 0 data light = Some light' -> (n <= length data)%nat.
Proof.
  intros Hloop. destruct n as [| n]; [lia |].
  destruct (light_loop_spec _ _ _ _ _ Hloop) as (added & _ & _ & Hnth).
  destruct (Hnth n ltac:(lia)) as (b & Hb & _).
  cbn [Nat.add] in Hb.
  assert (n < length data)%nat by (apply nth_error_Some; congruence). lia.
Qed.

(** X4.  A failed [Parse] cannot be retried.  After a throw the section is
    still pending, and a second run on the state the first one left throws
    118 again; the voxels of both runs have been appended to [m_blocks],
    which is then 8192 elements longer than before the first run. *)
Theorem Parse_throw_is_permanent (h : Heap) (s : Section) (p pLight : loc)
    (raw : list Z) (code : Z) (h' : Heap) (s' : Section) :
  1 <= m_bitsPerBlock s ->
  m_dataBlocks s = Some p -> heap_get h p = Some raw -> Forall is_byte raw ->
  m_dataLight s = Some pLight -> pLight <> p ->
  Parse h s = Thrown code (h', s') ->
  exists h'' s'',
    Parse h' s' = Thrown 118 (h'', s'') /\
    length (m_blocks s'')
    = (length (m_blocks s) + SECTION_VOLUME + SECTION_VOLUME)%nat.
Proof.
  intros Hk Hp Hraw Hbytes HpLight Hne Hparse.
  assert (Hused : heap_get h' p
                  = Some (repeat 0 (m_dataBlocksLen s) ++ skipn (m_dataBlocksLen s) raw)).
  { rewrite (Parse_thrown_heap h s p raw code h' s' Hp Hraw Hbytes Hparse).
    apply heap_get_put_same. apply (heap_get_live _ _ _ Hraw). }
  pose proof (Parse_pending h s p Hp) as Hcases. rewrite Hparse in Hcases.
  destruct Hcases as (locals & light & voxels & _ & Hlocals & Hdec & Hcheck & ->).
  destruct (Parse_locals_inv _ _ _ _ _ _ Hlocals)
    as (raw' & pl & dl & Hraw' & Hlen & _ & _ & Hpl & Hdl & Hloop).
  rewrite Hraw in Hraw'. injection Hraw' as <-.
  rewrite HpLight in Hpl. injection Hpl as <-.
  pose proof (light_loop_needs _ _ _ _ Hloop) as HlenL.
  pose proof (Parse_locals_count _ _ _ _ _ _ Hk Hlocals) as Hsize.
  pose proof (Parse_locals_light _ _ _ _ _ _ Hlocals) as Hlight.
  destruct (decode_loop_spec _ _ _ _ _ _ Hdec) as (added & -> & Hadded & Hnth).
  (* the second run *)
  set (raw2 := repeat 0 (m_dataBlocksLen s) ++ skipn (m_dataBlocksLen s) raw) in *.
  set (s1 := mkSection (worldPosition s) (m_dataBlocksLen s) (m_dataBlocks s)
               (m_dataLight s) (m_dataSkyLight s) (m_blocks s ++ added)
               (m_palette s) (m_bitsPerBlock s)).
  assert (Hlen2 : (m_dataBlocksLen s1 <= length raw2)%nat).
  { subst raw2 s1. cbn [m_dataBlocksLen].
    rewrite length_app, repeat_length, length_skipn. lia. }
  destruct (Parse_locals_total h' s1 p pLight raw2 dl)
    as (light2 & h2 & Hlocals2 & _); try assumption.
  pose proof (Parse_locals_count h' s1 p _ _ _ Hk Hlocals2) as Hsize2.
  pose proof (Parse_locals_light _ _ _ _ _ _ Hlocals2) as Hlight2.
  set (locals2 := unpack (m_bitsPerBlock s1) (normalized s1 raw2)) in *.
  assert (Hzeros : Forall (fun v => v = 0) locals2).
  { subst locals2. apply unpack_zero_buffer. unfold normalized.
    apply endswap_loop_Forall. subst raw2 s1. cbn [m_dataBlocksLen].
    rewrite firstn_app, repeat_length, Nat.sub_diag, firstn_O, app_nil_r.
    rewrite firstn_all2 by (rewrite repeat_length; lia).
    apply Forall_forall. intros b Hb. apply repeat_spec in Hb. assumption. }
  assert (Hmany : (SECTION_VOLUME <= length locals)%nat).
  { destruct (Nat.le_gt_cases SECTION_VOLUME (length locals)) as [| Hshort]; [assumption |].
    exfalso. destruct SECTION_VOLUME_pos as [n Hn].
    destruct (Nat.eq_dec (length locals) 0) as [E | E].
    - destruct (Hnth 0%nat ltac:(lia)) as (l0 & g0 & H0 & _).
      apply nth_error_In in H0. destruct locals; [contradiction | discriminate].
    - destruct (Hnth (length locals) Hshort) as (l0 & g0 & H0 & _).
      cbn [Nat.add] in H0.
      assert (length locals < length locals)%nat by (apply nth_error_Some; congruence).
      lia. }
  assert (Hsame : length locals2 = length locals).
  { apply Nat2Z.inj. rewrite Hsize2, Hsize. reflexivity. }
  destruct (decode_loop_total SECTION_VOLUME 0 (m_palette s1) locals2 (m_blocks s1))
    as (added2 & Hdec2 & Hadded2).
  - rewrite Hsame. exact Hmany.
  - intros v Hv. rewrite Forall_forall in Hzeros. rewrite (Hzeros v Hv).
    apply resolve_zero.
  - assert (Hcheck2 : count_check light2 locals2 = false).
    { unfold count_check in *. rewrite Hsame, Hlight2.
      rewrite Hlight in Hcheck. exact Hcheck. }
    eexists. eexists. split.
    + unfold Parse. change (m_dataBlocks s1) with (m_dataBlocks s). rewrite Hp.
      rewrite Hlocals2, Hdec2, Hcheck2. reflexivity.
    + unfold s1. cbn [m_blocks]. rewrite !length_app, Hadded, Hadded2. lia.
Qed.

Lemma Parse_throw_is_permanent_witness :
  exists h' s' h'' s'',
    Parse (fst long_sample) (snd long_sample) = Thrown 118 (h', s') /\
    Parse h' s' = Thrown 118 (h'', s'') /\
    length (m_blocks s'')
    = (length (m_blocks (snd long_sample)) + SECTION_VOLUME + SECTION_VOLUME)%nat.
Proof.
  destruct long_sample_runs as (l & li & hh & h' & s' & _ & _ & _ & Hparse & _).
  destruct long_sample_fields as (Hp & Hl & _ & _ & _ & Hk & _ & Hraw & _).
  destruct (Parse_throw_is_permanent (fst long_sample) (snd long_sample) 3%nat 4%nat
              (ramp (Z.to_nat 2056)) 118 h' s')
    as (h'' & s'' & Hagain & Hlen).
  - rewrite Hk. lia.
  - exact Hp.
  - exact Hraw.
  - apply ramp_bytes.
  - exact Hl.
  - discriminate.
  - exact Hparse.
  - exists h', s', h'', s''. split; [exact Hparse | split; [exact Hagain | exact Hlen]].
Defined.

(** * The first constructor *)

(** X5.  The first constructor copies its arguments: on readable caller
    buffers it returns a section that owns three freshly allocated arrays
    holding the first [dataBlocksLength] bytes of [dataBlocks], the first 2048
    bytes of [dataLight] and, when [dataSky] is not null, the first 2048 bytes
    of [dataSky].  The caller's arrays are left as they were, [m_blocks] is
    empty, and the length, palette, bit width and position are the
    arguments. *)
Theorem Section_new_owns_copies (h : Heap) (position : Vector)
    (pBlocks pLight : loc) (dataSky : option loc) (n : nat)
    (bits : Z) (palette : list Z) (rawB rawL : list Z) :
  heap_get h pBlocks = Some rawB -> (n <= length rawB)%nat ->
  heap_get h pLight = Some rawL -> (LIGHT_BYTES <= length rawL)%nat ->
  (forall pSky, dataSky = Some pSky ->
     exists rawS, heap_get h pSky = Some rawS /\ (LIGHT_BYTES <= length rawS)%nat) ->
  exists h' s,
    Section_new h position (Some pBlocks) n (Some pLight) dataSky bits palette
    = Returned (h', s) /\
    m_dataBlocks s = Some (length h) /\
    heap_get h' (length h) = Some (firstn n rawB) /\
    m_dataLight s = Some (S (length h)) /\
    heap_get h' (S (length h)) = Some (firstn LIGHT_BYTES rawL) /\
    (forall pSky, dataSky = Some pSky ->
       m_dataSkyLight s = Some (S (S (length h))) /\
       exists rawS, heap_get h pSky = Some rawS /\
                    heap_get h' (S (S (length h))) = Some (firstn LIGHT_BYTES rawS)) /\
    (forall q buf, heap_get h q = Some buf -> heap_get h' q = Some buf) /\
    m_blocks s = [] /\ m_dataBlocksLen s = n /\ m_palette s = palette /\
    m_bitsPerBlock s = bits /\ GetPosition s = position.
Proof.
  intros HrawB HlenB HrawL HlenL Hsky.
  unfold Section_new.
  unfold new_copy at 1. rewrite (read_bytes_live _ _ _ _ HrawB HlenB).
  unfold heap_new. set (h1 := h ++ [Some (firstn n rawB)]).
  assert (Hlen1 : length h1 = S (length h)) by (subst h1; rewrite length_app; simpl; lia).
  unfold new_copy at 1.
  rewrite (read_bytes_live h1 pLight LIGHT_BYTES rawL (heap_get_app_old _ _ _ _ HrawL) HlenL).
  unfold heap_new. set (h2 := h1 ++ [Some (firstn LIGHT_BYTES rawL)]).
  assert (Hlen2 : length h2 = S (S (length h))) by (subst h2; rewrite length_app; simpl; lia).
  assert (Hb2 : heap_get h2 (length h) = Some (firstn n rawB)).
  { subst h2. apply heap_get_app_old. subst h1. apply heap_get_app_new. }
  assert (Hl2 : heap_get h2 (S (length h)) = Some (firstn LIGHT_BYTES rawL)).
  { subst h2. rewrite <- Hlen1. apply heap_get_app_new. }
  assert (Hold2 : forall q buf, heap_get h q = Some buf -> heap_get h2 q = Some buf).
  { intros q buf Hq. subst h2 h1. do 2 apply heap_get_app_old. exact Hq. }
  destruct dataSky as [pSky |].
  - destruct (Hsky pSky eq_refl) as (rawS & HrawS & HlenS).
    unfold new_copy.
    rewrite (read_bytes_live h2 pSky LIGHT_BYTES rawS (Hold2 _ _ HrawS) HlenS).
    unfold heap_new. rewrite Hlen1, Hlen2.
    eexists. eexists. split; [reflexivity |].
    cbn [m_dataBlocks m_dataLight m_dataSkyLight m_dataBlocksLen m_palette
         m_bitsPerBlock m_blocks GetPosition worldPosition].
    split; [reflexivity |]. split; [apply heap_get_app_old; exact Hb2 |].
    split; [reflexivity |]. split; [apply heap_get_app_old; exact Hl2 |].
    split.
    { intros pSky' E. injection E as <-.
      split; [reflexivity |]. exists rawS. split; [assumption |].
      rewrite <- Hlen2. apply heap_get_app_new. }
    split; [intros q buf Hq; apply heap_get_app_old; apply Hold2; assumption |].
    repeat split; reflexivity.
  - rewrite Hlen1.
    eexists. eexists. split; [reflexivity |].
    cbn [m_dataBlocks m_dataLight m_dataSkyLight m_dataBlocksLen m_palette
         m_bitsPerBlock m_blocks GetPosition worldPosition].
    split; [reflexivity |]. split; [exact Hb2 |].
    split; [reflexivity |]. split; [exact Hl2 |].
    split; [intros pSky E; discriminate E |].
    split; [exact Hold2 |].
    repeat split; reflexivity.
Qed.

Lemma Section_new_owns_copies_witness :
  exists h' s,
    Section_new (caller_heap (ramp 8)) sample_position (Some 0%nat) 8
      (Some 1%nat) (Some 2%nat) 4 [] = Returned (h', s) /\
    m_dataBlocks s = Some (length (caller_heap (ramp 8))) /\
    heap_get h' (length (caller_heap (ramp 8))) = Some (firstn 8 (ramp 8)) /\
    m_dataLight s = Some (S (length (caller_heap (ramp 8)))) /\
    heap_get h' (S (length (caller_heap (ramp 8))))
    = Some (firstn LIGHT_BYTES sample_light) /\
    (forall pSky, Some 2%nat = Some pSky ->
       m_dataSkyLight s = Some (S (S (length (caller_heap (ramp 8))))) /\
       exists rawS, heap_get (caller_heap (ramp 8)) pSky = Some rawS /\
                    heap_get h' (S (S (length (caller_heap (ramp 8)))))
                    = Some (firstn LIGHT_BYTES rawS)) /\
    (forall q buf, heap_get (caller_heap (ramp 8)) q = Some buf ->
                   heap_get h' q = Some buf) /\
    m_blocks s = [] /\ m_dataBlocksLen s = 8%nat /\ m_palette s = [] /\
    m_bitsPerBlock s = 4 /\ GetPosition s = sample_position.
Proof.
  apply (Section_new_owns_copies (caller_heap (ramp 8)) sample_position 0%nat 1%nat
           (Some 2%nat) 8 4 [] (ramp 8) sample_light).
  - reflexivity.
  - rewrite ramp_length. apply le_n.
  - reflexivity.
  - rewrite sample_light_length. apply le_n.
  - intros pSky E. injection E as <-. exists sample_sky. split; [reflexivity |].
    unfold sample_sky. rewrite repeat_length. apply le_n.
Defined.

(** * Frames *)

Lemma heap_get_app_low (h extra : Heap) (q : loc) :
  (q < length h)%nat -> heap_get (h ++ extra) q = heap_get h q.
Proof.
  intros Hq. unfold heap_get. rewrite nth_error_app1 by assumption. reflexivity.
Qed.

(** A run of [Parse] writes to the block array and frees the three arrays of
    the section; every other cell of the heap is left as it was. *)
Lemma Parse_frame (h : Heap) (s : Section) (o : Heap * Section) (q : loc) :
  (Parse h s = Returned o \/ exists code, Parse h s = Thrown code o) ->
  Some q <> m_dataBlocks s -> Some q <> m_dataLight s -> Some q <> m_dataSkyLight s ->
  heap_get (fst o) q = heap_get h q.
Proof.
  intros Hparse Hb Hl Hs. destruct o as [h' s'].
  destruct (m_dataBlocks s) as [p |] eqn:Hp.
  - pose proof (Parse_pending h s p Hp) as Hcases.
    destruct Hparse as [Hparse | [code Hparse]]; rewrite Hparse in Hcases.
    + destruct Hcases as (locals & light & h1 & voxels & Hlocals & _ & _ & -> & _).
      destruct (Parse_locals_inv _ _ _ _ _ _ Hlocals) as (raw & pl & dl & _ & _ & _ & -> & _).
      cbn [fst]. rewrite Hp. rewrite !heap_get_delete_other by assumption.
      apply heap_get_put_other. congruence.
    + destruct Hcases as (locals & light & voxels & _ & Hlocals & _).
      destruct (Parse_locals_inv _ _ _ _ _ _ Hlocals) as (raw & pl & dl & _ & _ & _ & -> & _).
      cbn [fst]. apply heap_get_put_other. congruence.
  - assert (Hraw : raw_present s = false) by (unfold raw_present; rewrite Hp; reflexivity).
    rewrite (Parse_decoded h s Hraw) in Hparse.
    destruct Hparse as [Hparse | [code Hparse]]; [| discriminate Hparse].
    injection Hparse as <- <-. reflexivity.
Qed.

(** * The accumulator of the voxel loop *)

Lemma decode_loop_acc (n : nat) :
  forall i palette locals voxels,
    decode_loop n i palette locals voxels
    = match decode_loop n i palette locals [] with
      | Some added => Some (voxels ++ added)
      | None => None
      end.
Proof.
  induction n as [| n IH]; intros i palette locals voxels.
  - cbn [decode_loop]. rewrite app_nil_r. reflexivity.
  - cbn [decode_loop].
    destruct (nth_error locals i) as [local |]; [| reflexivity].
    destruct (resolve palette local) as [g |]; [| reflexivity].
    rewrite (IH (S i) palette locals (voxels ++ [make_block g])).
    rewrite (IH (S i) palette locals ([] ++ [make_block g])).
    destruct (decode_loop n (S i) palette locals []) as [added |]; [| reflexivity].
    rewrite <- app_assoc. reflexivity.
Qed.

(** * Parse on a second section with the same block bytes *)

Lemma normalized_firstn (s c : Section) (raw rawc : list Z) :
  m_dataBlocksLen c = m_dataBlocksLen s ->
  firstn (m_dataBlocksLen s) rawc = firstn (m_dataBlocksLen s) raw ->
  normalized c rawc = normalized s raw.
Proof. intros Hlen Hraw. unfold normalized. rewrite Hlen, Hraw. reflexivity. Qed.

Lemma Parse_same_input (h hc : Heap) (s c : Section) (p pc plc : loc)
    (raw rawc dlc : list Z) (h1 : Heap) (s1 : Section) :
  m_dataBlocks s = Some p -> heap_get h p = Some raw ->
  m_dataBlocks c = Some pc -> heap_get hc pc = Some rawc ->
  m_dataBlocksLen c = m_dataBlocksLen s ->
  m_palette c = m_palette s -> m_bitsPerBlock c = m_bitsPerBlock s ->
  (m_dataBlocksLen s <= length rawc)%nat ->
  firstn (m_dataBlocksLen s) rawc = firstn (m_dataBlocksLen s) raw ->
  m_dataLight c = Some plc -> plc <> pc ->
  heap_get hc plc = Some dlc -> (LIGHT_BYTES <= length dlc)%nat ->
  Parse h s = Returned (h1, s1) ->
  exists added h2 c2,
    m_blocks s1 = m_blocks s ++ added /\
    Parse hc c = Returned (h2, c2) /\
    m_blocks c2 = m_blocks c ++ added /\
    m_dataBlocks c2 = None /\ m_dataLight c2 = None /\ m_dataSkyLight c2 = None.
Proof.
  intros Hp Hraw Hpc Hrawc Hlen Hpal Hbits Hlenc Hsame Hplc Hne Hdlc Hlendlc Hparse.
  pose proof (Parse_pending h s p Hp) as Hcases. rewrite Hparse in Hcases.
  destruct Hcases as (locals & light & hh & voxels & Hlocals & Hdec & Hcheck & _ & ->).
  pose proof (Parse_locals_light _ _ _ _ _ _ Hlocals) as Hlight.
  destruct (Parse_locals_inv _ _ _ _ _ _ Hlocals)
    as (raw' & pl & dl & Hraw' & _ & Hloc & _).
  rewrite Hraw in Hraw'. injection Hraw' as <-.
  destruct (Parse_locals_total hc c pc plc rawc dlc)
    as (lightc & h1c & Hlocalsc & _); try assumption; [rewrite Hlen; assumption |].
  pose proof (Parse_locals_light _ _ _ _ _ _ Hlocalsc) as Hlightc.
  rewrite Hbits, (normalized_firstn s c raw rawc Hlen Hsame), <- Hloc in Hlocalsc.
  rewrite decode_loop_acc in Hdec.
  destruct (decode_loop SECTION_VOLUME 0 (m_palette s) locals []) as [added |] eqn:Hadded;
    [| discriminate Hdec].
  injection Hdec as <-.
  exists added. eexists. eexists.
  split; [reflexivity |].
  split.
  - unfold Parse. rewrite Hpc, Hlocalsc, Hpal.
    rewrite decode_loop_acc, Hadded.
    replace (count_check lightc locals) with true; [reflexivity |].
    rewrite <- Hcheck. unfold count_check. rewrite Hlight, Hlightc. reflexivity.
  - cbn [m_blocks m_dataBlocks m_dataLight m_dataSkyLight]. repeat split; reflexivity.
Qed.

(** * Copy, then Parse *)

(** X6.  A copy of a pending section parses like the original.  When [Parse]
    returns on the section, the copy constructor returns on it too, [Parse]
    returns on the copy, the copy ends with exactly the voxels that the run
    on the original appended and with the same position, and no cell of the
    heap that existed before the copy was made is changed by copying and
    parsing the copy. *)
Theorem Parse_of_copy (h : Heap) (s : Section) (p pLight : loc)
    (h1 : Heap) (s1 : Section) :
  m_dataBlocks s = Some p ->
  m_dataLight s = Some pLight -> pLight <> p ->
  (forall pSky, m_dataSkyLight s = Some pSky ->
     exists sky, heap_get h pSky = Some sky /\ (LIGHT_BYTES <= length sky)%nat) ->
  Parse h s = Returned (h1, s1) ->
  exists hc c h2 c2,
    Section_copy h s = Returned (hc, c) /\
    Parse hc c = Returned (h2, c2) /\
    m_blocks s1 = m_blocks s ++ m_blocks c2 /\
    GetPosition c2 = GetPosition s1 /\
    (forall q, (q < length h)%nat -> heap_get h2 q = heap_get h q).
Proof.
  intros Hp Hl Hne Hsky Hparse.
  pose proof (Parse_pending h s p Hp) as Hcases. rewrite Hparse in Hcases.
  destruct Hcases as (locals & light & hh & voxels & Hlocals & _ & _ & _ & Hs1).
  destruct (Parse_locals_inv _ _ _ _ _ _ Hlocals)
    as (raw & pl & dl & Hraw & Hlen & _ & Hhh & Hpl & Hdl & Hloop).
  rewrite Hl in Hpl. injection Hpl as <-.
  rewrite Hhh, heap_get_put_other in Hdl by congruence.
  pose proof (light_loop_needs _ _ _ _ Hloop) as Hlendl.
  destruct (Section_copy_pending h s p pLight raw dl Hp Hraw Hlen Hl Hdl Hlendl Hsky)
    as (hc & c & Hcopy & Hcb & Hcl & Hcraw & Hclight & Hcsky & Hold
        & Hclen & Hcpal & Hcbits & Hcpos).
  destruct (Parse_same_input h hc s c p (length h) (S (length h)) raw
              (firstn (m_dataBlocksLen s) raw) (firstn LIGHT_BYTES dl) h1 s1)
    as (added & h2 & c2 & Hs1b & Hparsec & Hc2b & _); try assumption.
  - rewrite length_firstn. lia.
  - rewrite firstn_firstn, Nat.min_id. reflexivity.
  - lia.
  - rewrite length_firstn. lia.
  - destruct (Section_copy_returned _ _ _ _ Hcopy) as [Hcempty _].
    rewrite Hcempty in Hc2b. cbn [app] in Hc2b.
    exists hc, c, h2, c2.
    split; [exact Hcopy |]. split; [exact Hparsec |].
    split; [rewrite Hc2b; exact Hs1b |].
    split.
    + pose proof (Parse_pending hc c (length h) Hcb) as Hcases. rewrite Hparsec in Hcases.
      destruct Hcases as (l & li & hh' & v & _ & _ & _ & _ & ->).
      rewrite Hs1. unfold GetPosition. cbn [worldPosition]. exact Hcpos.
    + intros q Hq.
      assert (Hframe : heap_get h2 q = heap_get hc q).
      { apply (Parse_frame hc c (h2, c2) q); [left; exact Hparsec | | |].
        - rewrite Hcb. intros E. injection E as E. lia.
        - rewrite Hcl. intros E. injection E as E. lia.
        - destruct (m_dataSkyLight s) as [ps |].
          + destruct Hcsky as [-> _]. intros E. injection E as E. lia.
          + rewrite Hcsky. discriminate. }
      rewrite Hframe.
      destruct (heap_get h q) as [buf |] eqn:Hbuf.
      * apply (Hold q buf Hbuf).
      * assert (Hlenhc : exists extra, hc = h ++ extra).
        { unfold Section_copy in Hcopy. rewrite Hp, Hl in Hcopy.
          unfold new_copy, heap_new in Hcopy.
          destruct (read_bytes h (Some p) (m_dataBlocksLen s)) as [b0 |]; [| discriminate Hcopy].
          destruct (read_bytes _ (Some pLight) LIGHT_BYTES) as [b1 |]; [| discriminate Hcopy].
          destruct (m_dataSkyLight s) as [ps |].
          - destruct (read_bytes _ (Some ps) LIGHT_BYTES) as [b2 |]; [| discriminate Hcopy].
            injection Hcopy as <- _. eexists. rewrite <- !app_assoc. reflexivity.
          - injection Hcopy as <- _. eexists. rewrite <- !app_assoc. reflexivity. }
        destruct Hlenhc as [extra ->].
        rewrite heap_get_app_low by assumption. exact Hbuf.
Qed.

Lemma Parse_of_copy_witness :
  exists hc c h2 c2,
    Section_copy (fst pending_sample) (snd pending_sample) = Returned (hc, c) /\
    Parse hc c = Returned (h2, c2) /\
    m_blocks (snd decoded_sample) = m_blocks (snd pending_sample) ++ m_blocks c2 /\
    GetPosition c2 = GetPosition (snd decoded_sample) /\
    (forall q, (q < length (fst pending_sample))%nat ->
               heap_get h2 q = heap_get (fst pending_sample) q).
Proof.
  destruct pending_sample_fields as (Hp & Hl & Hs & _ & _ & _ & _ & _ & _ & Hsky & _).
  apply (Parse_of_copy (fst pending_sample) (snd pending_sample) 3%nat 4%nat
           (fst decoded_sample) (snd decoded_sample)).
  - exact Hp.
  - exact Hl.
  - intros E. discriminate E.
  - intros pSky E. rewrite Hs in E. injection E as <-.
    exists sample_sky. split; [exact Hsky |].
    unfold sample_sky. rewrite repeat_length. apply le_n.
  - destruct pending_sample_runs as (l & li & hh & _ & _ & _ & -> & _).
    apply f_equal, surjective_pairing.
Defined.

(** * The destructor *)

Lemma delete_array_live (h : Heap) (p : option loc) :
  (forall l, p = Some l -> exists buf, heap_get h l = Some buf) ->
  delete_array h p = Some (heap_delete h p).
Proof.
  intros Hlive. destruct p as [l |]; [| reflexivity].
  destruct (Hlive l eq_refl) as [buf Hbuf]. cbn [delete_array heap_delete].
  rewrite Hbuf. reflexivity.
Qed.

Lemma Section_destroy_live (h : Heap) (s : Section) :
  (forall p, m_dataBlocks s = Some p -> exists buf, heap_get h p = Some buf) ->
  (forall p, m_dataLight s = Some p ->
     Some p <> m_dataBlocks s /\ exists buf, heap_get h p = Some buf) ->
  (forall p, m_dataSkyLight s = Some p ->
     Some p <> m_dataBlocks s /\ Some p <> m_dataLight s /\
     exists buf, heap_get h p = Some buf) ->
  Section_destroy h s
  = Returned (heap_delete (heap_delete (heap_delete h (m_dataBlocks s)) (m_dataLight s))
                (m_dataSkyLight s),
              mkSection (worldPosition s) 0 None None None (m_blocks s)
                (m_palette s) (m_bitsPerBlock s)).
Proof.
  intros Hb Hl Hs. unfold Section_destroy.
  rewrite (delete_array_live h (m_dataBlocks s) Hb).
  rewrite (delete_array_live _ (m_dataLight s)).
  - rewrite (delete_array_live _ (m_dataSkyLight s)); [reflexivity |].
    intros l El. destruct (Hs l El) as (Hne1 & Hne2 & buf & Hbuf).
    exists buf. rewrite !heap_get_delete_other by assumption. exact Hbuf.
  - intros l El. destruct (Hl l El) as (Hne & buf & Hbuf).
    exists buf. rewrite heap_get_delete_other by assumption. exact Hbuf.
Qed.

Lemma heap_get_deleted (h : Heap) (a b c : option loc) (q : loc) :
  Some q = a \/ Some q = b \/ Some q = c ->
  heap_get (heap_delete (heap_delete (heap_delete h a) b) c) q = None.
Proof.
  intros [<- | [<- | <-]].
  - do 2 apply heap_get_delete_none. apply heap_get_delete_same.
  - apply heap_get_delete_none. apply heap_get_delete_same.
  - apply heap_get_delete_same.
Qed.

(** X7.  The destructor returns when every array pointer of the section that
    is not null refers to a live array and no two of them refer to the same
    one.  It frees exactly these arrays: each of them is gone afterwards,
    every other cell of the heap is unchanged, and the pointers are null and
    the length 0 in the state it leaves. *)
Theorem Section_destroy_frees (h : Heap) (s : Section) :
  (forall p, m_dataBlocks s = Some p -> exists buf, heap_get h p = Some buf) ->
  (forall p, m_dataLight s = Some p ->
     Some p <> m_dataBlocks s /\ exists buf, heap_get h p = Some buf) ->
  (forall p, m_dataSkyLight s = Some p ->
     Some p <> m_dataBlocks s /\ Some p <> m_dataLight s /\
     exists buf, heap_get h p = Some buf) ->
  exists h' s',
    Section_destroy h s = Returned (h', s') /\
    (forall q, Some q = m_dataBlocks s \/ Some q = m_dataLight s \/
               Some q = m_dataSkyLight s -> heap_get h' q = None) /\
    (forall q, Some q <> m_dataBlocks s -> Some q <> m_dataLight s ->
               Some q <> m_dataSkyLight s -> heap_get h' q = heap_get h q) /\
    length h' = length h /\
    m_dataBlocks s' = None /\ m_dataLight s' = None /\ m_dataSkyLight s' = None /\
    m_dataBlocksLen s' = 0%nat.
Proof.
  intros Hb Hl Hs. eexists. eexists.
  split; [apply Section_destroy_live; assumption |].
  split; [intros q Hq; apply heap_get_deleted; exact Hq |].
  split; [intros q H1 H2 H3; rewrite !heap_get_delete_other by assumption; reflexivity |].
  split; [rewrite !heap_delete_length; reflexivity |].
  cbn [m_dataBlocks m_dataLight m_dataSkyLight m_dataBlocksLen].
  repeat split; reflexivity.
Qed.

Lemma Section_destroy_frees_witness :
  exists h' s',
    Section_destroy (fst pending_sample) (snd pending_sample) = Returned (h', s') /\
    (forall q, Some q = m_dataBlocks (snd pending_sample) \/
               Some q = m_dataLight (snd pending_sample) \/
               Some q = m_dataSkyLight (snd pending_sample) -> heap_get h' q = None) /\
    (forall q, Some q <> m_dataBlocks (snd pending_sample) ->
               Some q <> m_dataLight (snd pending_sample) ->
               Some q <> m_dataSkyLight (snd pending_sample) ->
               heap_get h' q = heap_get (fst pending_sample) q) /\
    length h' = length (fst pending_sample) /\
    m_dataBlocks s' = None /\ m_dataLight s' = None /\ m_dataSkyLight s' = None /\
    m_dataBlocksLen s' = 0%nat.
Proof.
  destruct pending_sample_fields
    as (Hp & Hl & Hs & _ & _ & _ & _ & Hraw & Hlight & Hsky & _).
  apply (Section_destroy_frees (fst pending_sample) (snd pending_sample)).
  - intros p E. rewrite Hp in E. injection E as <-. eexists. exact Hraw.
  - intros p E. rewrite Hl in E. injection E as <-. rewrite Hp.
    split; [intros E; discriminate E | eexists; exact Hlight].
  - intros p E. rewrite Hs in E. injection E as <-. rewrite Hp, Hl.
    split; [intros E; discriminate E |].
    split; [intros E; discriminate E | eexists; exact Hsky].
Defined.

(** X8.  A section can be destroyed after [Parse] whether the run returned
    or threw.  After a return the pointers are null and the destructor frees
    nothing twice; after a throw the three arrays are still allocated and the
    destructor frees them.  Either way the three arrays of the section are
    freed at the end, and every other cell holds what it held before
    [Parse]. *)
Theorem Parse_then_destroy (h : Heap) (s : Section) (p pLight : loc)
    (o : Heap * Section) :
  m_dataBlocks s = Some p -> m_dataLight s = Some pLight -> pLight <> p ->
  (forall pSky, m_dataSkyLight s = Some pSky ->
     pSky <> p /\ pSky <> pLight /\ exists sky, heap_get h pSky = Some sky) ->
  (Parse h s = Returned o \/ exists code, Parse h s = Thrown code o) ->
  exists h2 s2,
    Section_destroy (fst o) (snd o) = Returned (h2, s2) /\
    (forall q, Some q = m_dataBlocks s \/ Some q = m_dataLight s \/
               Some q = m_dataSkyLight s -> heap_get h2 q = None) /\
    (forall q, Some q <> m_dataBlocks s -> Some q <> m_dataLight s ->
               Some q <> m_dataSkyLight s -> heap_get h2 q = heap_get h q).
Proof.
  intros Hp Hl Hne Hsky Hparse. destruct o as [h1 s1].
  pose proof (Parse_pending h s p Hp) as Hcases.
  destruct Hparse as [Hparse | [code Hparse]]; rewrite Hparse in Hcases.
  - destruct Hcases as (locals & light & hh & voxels & Hlocals & _ & _ & -> & ->).
    cbn [fst snd]. eexists. eexists.
    split; [apply Section_destroy_live; cbn [m_dataBlocks m_dataLight m_dataSkyLight];
            intros q E; discriminate E |].
    cbn [m_dataBlocks m_dataLight m_dataSkyLight m_blocks heap_delete].
    split; [intros q Hq; apply heap_get_deleted; exact Hq |].
    intros q H1 H2 H3.
    apply (Parse_frame h s (_, mkSection (worldPosition s) 0 None None None voxels
                                 (m_palette s) (m_bitsPerBlock s)) q);
      [left; exact Hparse | assumption | assumption | assumption].
  - destruct Hcases as (locals & light & voxels & _ & Hlocals & _ & _ & ->).
    destruct (Parse_locals_inv _ _ _ _ _ _ Hlocals)
      as (raw & pl & dl & Hraw & _ & _ & Hh1 & Hpl & Hdl & _).
    rewrite Hl in Hpl. injection Hpl as <-.
    pose proof (heap_get_live _ _ _ Hraw) as Hbound.
    cbn [fst snd]. eexists. eexists.
    split; [apply Section_destroy_live;
            cbn [m_dataBlocks m_dataLight m_dataSkyLight] |].
    + intros q E. rewrite Hp in E. injection E as <-.
      rewrite Hh1, heap_get_put_same by assumption. eexists. reflexivity.
    + intros q E. rewrite Hl in E. injection E as <-. rewrite Hp.
      split; [congruence | eexists; exact Hdl].
    + intros q E. destruct (Hsky q E) as (Hn1 & Hn2 & sky & Hskyq). rewrite Hp, Hl.
      split; [congruence |]. split; [congruence |].
      exists sky. rewrite Hh1, heap_get_put_other by congruence. exact Hskyq.
    + cbn [m_dataBlocks m_dataLight m_dataSkyLight m_blocks].
      split; [intros q Hq; apply heap_get_deleted; exact Hq |].
      intros q H1 H2 H3. rewrite !heap_get_delete_other by assumption.
      rewrite Hh1. apply heap_get_put_other. congruence.
Qed.

Lemma Parse_then_destroy_witness :
  exists o h2 s2,
    Parse (fst long_sample) (snd long_sample) = Thrown 118 o /\
    Section_destroy (fst o) (snd o) = Returned (h2, s2) /\
    (forall q, Some q = m_dataBlocks (snd long_sample) \/
               Some q = m_dataLight (snd long_sample) \/
               Some q = m_dataSkyLight (snd long_sample) -> heap_get h2 q = None) /\
    (forall q, Some q <> m_dataBlocks (snd long_sample) ->
               Some q <> m_dataLight (snd long_sample) ->
               Some q <> m_dataSkyLight (snd long_sample) ->
               heap_get h2 q = heap_get (fst long_sample) q).
Proof.
  destruct long_sample_runs as (locals & light & h1 & h' & s' & _ & _ & _ & Hparse & _).
  destruct long_sample_fields as (Hp & Hl & Hs & _ & _ & _ & _ & _ & _ & Hsky & _).
  destruct (Parse_then_destroy (fst long_sample) (snd long_sample) 3%nat 4%nat (h', s'))
    as (h2 & s2 & Hrest).
  - exact Hp.
  - exact Hl.
  - intros E. discriminate E.
  - intros pSky E. rewrite Hs in E. injection E as <-.
    split; [intros E; discriminate E |]. split; [intros E; discriminate E |].
    eexists. exact Hsky.
  - right. exists 118. exact Hparse.
  - exists (h', s'), h2, s2. split; [exact Hparse | exact Hrest].
Defined.

(** * Copy, then destroy *)

Lemma Section_copy_allocates (h : Heap) (s : Section) (hc : Heap) (c : Section) :
  Section_copy h s = Returned (hc, c) ->
  exists b0 b1,
    m_dataBlocks c = Some (length h) /\ m_dataLight c = Some (S (length h)) /\
    ((m_dataSkyLight c = None /\ hc = h ++ [Some b0; Some b1]) \/
     (exists b2, m_dataSkyLight c = Some (S (S (length h))) /\
                 hc = h ++ [Some b0; Some b1; Some b2])).
Proof.
  unfold Section_copy, new_copy, heap_new. intros Hcopy.
  destruct (read_bytes h (m_dataBlocks s) (m_dataBlocksLen s)) as [b0 |];
    [| discriminate Hcopy].
  destruct (read_bytes _ (m_dataLight s) LIGHT_BYTES) as [b1 |]; [| discriminate Hcopy].
  assert (Hlen1 : length (h ++ [Some b0]) = S (length h))
    by (rewrite length_app; simpl; lia).
  exists b0, b1.
  destruct (m_dataSkyLight s) as [ps |].
  - destruct (read_bytes _ (Some ps) LIGHT_BYTES) as [b2 |]; [| discriminate Hcopy].
    injection Hcopy as <- <-. cbn [m_dataBlocks m_dataLight m_dataSkyLight].
    split; [reflexivity |]. split; [rewrite Hlen1; reflexivity |].
    right. exists b2. rewrite <- !app_assoc.
    split; [f_equal; rewrite !length_app; simpl; lia | reflexivity].
  - injection Hcopy as <- <-. cbn [m_dataBlocks m_dataLight m_dataSkyLight].
    split; [reflexivity |]. split; [rewrite Hlen1; reflexivity |].
    left. rewrite <- !app_assoc. split; reflexivity.
Qed.

Lemma heap_get_app_at (h : Heap) (extra : Heap) (i : nat) (buf : list Z) :
  nth_error extra i = Some (Some buf) ->
  heap_get (h ++ extra) (length h + i) = Some buf.
Proof.
  intros Hi. unfold heap_get. rewrite nth_error_app2 by lia.
  replace (length h + i - length h)%nat with i by lia. rewrite Hi. reflexivity.
Qed.

Lemma option_loc_dec (a b : option loc) : {a = b} + {a <> b}.
Proof. decide equality. apply Nat.eq_dec. Qed.

(** X9.  The copy owns its arrays: destroying a copy that the copy
    constructor returned has defined behaviour, leaves every cell that existed
    before the copy as it was, and leaves nothing allocated beyond them. *)
Theorem copy_then_destroy (h : Heap) (s : Section) (hc : Heap) (c : Section) :
  Section_copy h s = Returned (hc, c) ->
  exists h2 c2,
    Section_destroy hc c = Returned (h2, c2) /\
    (forall q, (q < length h)%nat -> heap_get h2 q = heap_get h q) /\
    (forall q, (length h <= q)%nat -> heap_get h2 q = None).
Proof.
  intros Hcopy.
  destruct (Section_copy_allocates h s hc c Hcopy) as (b0 & b1 & Hb & Hl & Hcases).
  assert (H0 : heap_get hc (length h) = Some b0).
  { rewrite <- (Nat.add_0_r (length h)).
    destruct Hcases as [[_ ->] | (b2 & _ & ->)]; apply heap_get_app_at; reflexivity. }
  assert (H1 : heap_get hc (S (length h)) = Some b1).
  { replace (S (length h)) with (length h + 1)%nat by lia.
    destruct Hcases as [[_ ->] | (b2 & _ & ->)]; apply heap_get_app_at; reflexivity. }
  assert (Hlow : forall q, (q < length h)%nat -> heap_get hc q = heap_get h q).
  { intros q Hq. destruct Hcases as [[_ ->] | (b2 & _ & ->)];
      apply heap_get_app_low; assumption. }
  assert (Hhigh : forall q, (length h <= q)%nat ->
            Some q <> m_dataBlocks c -> Some q <> m_dataLight c ->
            Some q <> m_dataSkyLight c -> heap_get hc q = None).
  { intros q Hq Hn0 Hn1 Hn2. rewrite Hb in Hn0. rewrite Hl in Hn1.
    unfold heap_get.
    replace (nth_error hc q) with (@None (option (list Z))); [reflexivity |].
    symmetry. apply nth_error_None.
    destruct Hcases as [[_ ->] | (b2 & Hs & ->)]; rewrite length_app; simpl.
    - assert (q <> length h) by congruence. assert (q <> S (length h)) by congruence. lia.
    - rewrite Hs in Hn2.
      assert (q <> length h) by congruence. assert (q <> S (length h)) by congruence.
      assert (q <> S (S (length h))) by congruence. lia. }
  eexists. eexists.
  split; [apply Section_destroy_live |].
  - intros p E. rewrite Hb in E. injection E as <-. eexists. exact H0.
  - intros p E. rewrite Hl in E. injection E as <-. rewrite Hb.
    split; [intros E; injection E as E; lia | eexists; exact H1].
  - intros p E. rewrite Hb, Hl.
    destruct Hcases as [[Hs _] | (b2 & Hs & ->)]; rewrite Hs in E; [discriminate E |].
    injection E as <-.
    split; [intros E; injection E as E; lia |].
    split; [intros E; injection E as E; lia |].
    exists b2. replace (S (S (length h))) with (length h + 2)%nat by lia.
    apply heap_get_app_at. reflexivity.
  - split.
    + intros q Hq. rewrite !heap_get_delete_other.
      * apply Hlow. assumption.
      * rewrite Hb. intros E. injection E as E. lia.
      * rewrite Hl. intros E. injection E as E. lia.
      * destruct Hcases as [[Hs _] | (b2 & Hs & _)]; rewrite Hs;
          [discriminate | intros E; injection E as E; lia].
    + intros q Hq.
      destruct ((option_loc_dec (Some q) (m_dataBlocks c))) as [E0 | N0];
        [apply heap_get_deleted; left; exact E0 |].
      destruct ((option_loc_dec (Some q) (m_dataLight c))) as [E1 | N1];
        [apply heap_get_deleted; right; left; exact E1 |].
      destruct ((option_loc_dec (Some q) (m_dataSkyLight c))) as [E2 | N2];
        [apply heap_get_deleted; right; right; exact E2 |].
      rewrite !heap_get_delete_other by assumption.
      apply Hhigh; assumption.
Qed.

Lemma pending_sample_copy :
  exists hc c,
    Section_copy (fst pending_sample) (snd pending_sample) = Returned (hc, c).
Proof.
  destruct pending_sample_fields
    as (Hp & Hl & Hs & _ & Hlen & _ & _ & Hraw & Hlight & Hsky & _).
  destruct (Section_copy_pending (fst pending_sample) (snd pending_sample) 3%nat 4%nat
              (ramp (Z.to_nat 2048)) sample_light) as (hc & c & Hcopy & _).
  - exact Hp.
  - exact Hraw.
  - rewrite Hlen. apply le_n.
  - exact Hl.
  - exact Hlight.
  - rewrite sample_light_length. apply le_n.
  - intros ps E. rewrite Hs in E. injection E as <-.
    exists sample_sky. split; [exact Hsky |].
    unfold sample_sky. rewrite repeat_length. apply le_n.
  - exists hc, c. exact Hcopy.
Qed.

Lemma copy_then_destroy_witness :
  exists hc c h2 c2,
    Section_copy (fst pending_sample) (snd pending_sample) = Returned (hc, c) /\
    Section_destroy hc c = Returned (h2, c2) /\
    (forall q, (q < length (fst pending_sample))%nat ->
               heap_get h2 q = heap_get (fst pending_sample) q) /\
    (forall q, (length (fst pending_sample) <= q)%nat -> heap_get h2 q = None).
Proof.
  destruct pending_sample_copy as (hc & c & Hcopy).
  destruct (copy_then_destroy (fst pending_sample) (snd pending_sample) hc c Hcopy)
    as (h2 & c2 & Hrest).
  exists hc, c, h2, c2. split; [exact Hcopy | exact Hrest].
Defined.

(** * The position of a section *)

(** X10.  The position of a section is fixed at construction: [Parse] keeps
    it, whether it returns or throws, and the copy constructor gives the copy
    the position of the original. *)
Theorem GetPosition_stable (h : Heap) (s : Section) (o : Heap * Section) :
  Parse h s = Returned o \/ (exists code, Parse h s = Thrown code o) \/
  Section_copy h s = Returned o ->
  GetPosition (snd o) = GetPosition s.
Proof.
  intros Hrun. destruct o as [h' s']. cbn [snd]. unfold GetPosition.
  assert (Hparse : forall o', (Parse h s = Returned o' \/
                               exists code, Parse h s = Thrown code o') ->
                              worldPosition (snd o') = worldPosition s).
  { intros [h1 s1] Hparse. cbn [snd].
    destruct (m_dataBlocks s) as [p |] eqn:Hp.
    - pose proof (Parse_pending h s p Hp) as Hcases.
      destruct Hparse as [Hparse | [code Hparse]]; rewrite Hparse in Hcases.
      + destruct Hcases as (l & li & hh & v & _ & _ & _ & _ & ->). reflexivity.
      + destruct Hcases as (l & li & v & _ & _ & _ & _ & ->). reflexivity.
    - assert (Hraw : raw_present s = false) by (unfold raw_present; rewrite Hp; reflexivity).
      rewrite (Parse_decoded h s Hraw) in Hparse.
      destruct Hparse as [Hparse | [code Hparse]]; [| discriminate Hparse].
      injection Hparse as _ <-. reflexivity. }
  destruct Hrun as [Hr | [Ht | Hcopy]].
  - apply (Hparse (h', s')). left. exact Hr.
  - apply (Hparse (h', s')). right. exact Ht.
  - unfold Section_copy in Hcopy.
    destruct (new_copy h (m_dataBlocks s) (m_dataBlocksLen s)) as [[h1 pb] |];
      [| discriminate Hcopy].
    destruct (new_copy h1 (m_dataLight s) LIGHT_BYTES) as [[h2 pl] |];
      [| discriminate Hcopy].
    destruct (m_dataSkyLight s) as [ps |].
    + destruct (new_copy h2 (Some ps) LIGHT_BYTES) as [[h3 pss] |]; [| discriminate Hcopy].
      injection Hcopy as _ <-. reflexivity.
    + injection Hcopy as _ <-. reflexivity.
Qed.

Lemma GetPosition_stable_witness :
  GetPosition (snd decoded_sample) = GetPosition (snd pending_sample).
Proof.
  apply (GetPosition_stable (fst pending_sample) (snd pending_sample) decoded_sample).
  left. destruct pending_sample_runs as (l & li & hh & _ & _ & _ & -> & _). reflexivity.
Defined.

(** * swap *)

Lemma Parse_locals_fields (h : Heap) (s c : Section) (p : loc) :
  m_dataBlocksLen c = m_dataBlocksLen s -> m_dataLight c = m_dataLight s ->
  m_bitsPerBlock c = m_bitsPerBlock s ->
  Parse_locals h c p = Parse_locals h s p.
Proof.
  intros Hlen Hl Hk. unfold Parse_locals, normalized. rewrite Hlen, Hl, Hk. reflexivity.
Qed.

(** X11.  [swap] exchanges the contents of two sections and not their
    positions, and [Parse] does not look at the position: parsing the first
    section after [swap(a, b)] has the outcome and the heap of parsing [b],
    and the resulting section holds the resulting contents of [b] at the
    position of [a]; likewise for the second section and [a]. *)
Theorem swap_then_Parse (h : Heap) (a b : Section) :
  Parse h (fst (swap a b))
  = match Parse h b with
    | Returned (h', b') => Returned (h', fst (swap a b'))
    | Thrown code (h', b') => Thrown code (h', fst (swap a b'))
    | Undefined => Undefined
    end /\
  Parse h (snd (swap a b))
  = match Parse h a with
    | Returned (h', a') => Returned (h', snd (swap a' b))
    | Thrown code (h', a') => Thrown code (h', snd (swap a' b))
    | Undefined => Undefined
    end.
Proof.
  assert (Hgen : forall pos s,
            Parse h (mkSection pos (m_dataBlocksLen s) (m_dataBlocks s) (m_dataLight s)
                       (m_dataSkyLight s) (m_blocks s) (m_palette s) (m_bitsPerBlock s))
            = match Parse h s with
              | Returned (h', s') =>
                  Returned (h', mkSection pos (m_dataBlocksLen s') (m_dataBlocks s')
                                  (m_dataLight s') (m_dataSkyLight s') (m_blocks s')
                                  (m_palette s') (m_bitsPerBlock s'))
              | Thrown code (h', s') =>
                  Thrown code (h', mkSection pos (m_dataBlocksLen s') (m_dataBlocks s')
                                     (m_dataLight s') (m_dataSkyLight s') (m_blocks s')
                                     (m_palette s') (m_bitsPerBlock s'))
              | Undefined => Undefined
              end).
  { intros pos s. unfold Parse.
    cbn [m_dataBlocksLen m_dataBlocks m_dataLight m_dataSkyLight m_blocks m_palette
         m_bitsPerBlock worldPosition].
    destruct (m_dataBlocks s) as [p |] eqn:Hp; [| rewrite Hp; reflexivity].
    rewrite (Parse_locals_fields h s
               (mkSection pos (m_dataBlocksLen s) (Some p) (m_dataLight s)
                  (m_dataSkyLight s) (m_blocks s) (m_palette s) (m_bitsPerBlock s)) p)
      by reflexivity.
    destruct (Parse_locals h s p) as [[[locals light] h1] |]; [| reflexivity].
    destruct (decode_loop _ _ _ _ _) as [voxels |]; [| reflexivity].
    destruct (count_check light locals); reflexivity. }
  split.
  - unfold swap. cbn [fst]. rewrite (Hgen (worldPosition a) b).
    destruct (Parse h b) as [[h' b'] | code [h' b'] |]; reflexivity.
  - unfold swap. cbn [snd]. rewrite (Hgen (worldPosition b) a).
    destruct (Parse h a) as [[h' a'] | code [h' a'] |]; reflexivity.
Qed.

(** * Four bits per block *)

(** X12.  At four bits per block the bit loop splits every byte into its two
    nibbles, low nibble first: on a buffer of bytes it emits
    [b mod 16; b / 16] for each byte [b] in turn. *)
Theorem unpack_four_nibbles (data : list Z) :
  Forall is_byte data ->
  unpack 4 data = flat_map (fun b => [b mod 16; b / 16]) data.
Proof.
  intros Hall. unfold unpack.
  rewrite unpack_loop_bits; [| lia | exact Hall | simpl; lia].
  rewrite buffer_bits_nibbles. unfold unpacker_init.
  rewrite run_entries; [| lia |].
  - cbn [blocks app]. rewrite <- (map_id (flat_map _ data)) at 2.
    apply map_ext. apply emitted_four.
  - apply Forall_flat_map. eapply Forall_impl; [| exact Hall].
    intros b Hb. unfold is_byte in Hb. change (2 ^ 4) with 16.
    constructor; [| constructor; [| constructor]]; Z.div_mod_to_equations; lia.
Qed.

Lemma unpack_four_nibbles_witness :
  unpack 4 [171; 205] = flat_map (fun b => [b mod 16; b / 16]) [171; 205].
Proof.
  apply (unpack_four_nibbles [171; 205]).
  repeat constructor; unfold is_byte; lia.
Defined.

(** * An empty palette *)

Lemma make_block_small (v : Z) :
  0 <= v < 16 -> make_block v = mkBlock 0 v.
Proof.
  intros Hv. unfold make_block. f_equal.
  - rewrite Z.shiftr_div_pow2 by lia. apply Z.div_small. simpl. lia.
  - change 15 with (Z.ones 4). rewrite Z.land_ones by lia. apply Z.mod_small. simpl. lia.
Qed.

Lemma emitted_below_16 (k v : Z) : 4 <= k -> emitted_ok k v -> 0 <= v < 16.
Proof.
  intros Hk (H0 & Hsmall & Hzero & _).
  destruct (Z.le_gt_cases k 8) as [Hle | Hgt].
  - specialize (Hsmall Hle).
    assert (2 ^ (8 - k) <= 2 ^ 4) by (apply Z.pow_le_mono_r; lia).
    change (2 ^ 4) with 16 in *. lia.
  - rewrite Hzero by lia. lia.
Qed.

(** X13.  With an empty palette and a width from 4 to 32 bits per block (32
    is the last width for which the shift of line 67 is defined), every voxel
    that a run of [Parse] appends has block id 0: the value the bit loop emits
    is below 16, so [blockId >> 4] is 0 and the whole value lands in the
    state.  This holds for a run that returns and for a run that throws. *)
Theorem Parse_direct_ids (h : Heap) (s : Section) (p : loc) (o : Heap * Section) :
  m_dataBlocks s = Some p -> m_palette s = [] -> 4 <= m_bitsPerBlock s <= 32 ->
  (Parse h s = Returned o \/ exists code, Parse h s = Thrown code o) ->
  exists added,
    m_blocks (snd o) = m_blocks s ++ added /\ length added = SECTION_VOLUME /\
    Forall (fun b => id b = 0 /\ 0 <= state b < 16) added.
Proof.
  intros Hp Hpal [Hk Hwidth] Hparse. destruct o as [h' s'].
  pose proof (Parse_pending h s p Hp) as Hcases.
  assert (Hrun : exists locals light h1 voxels,
            Parse_locals h s p = Some (locals, light, h1) /\
            decode_loop SECTION_VOLUME 0 (m_palette s) locals (m_blocks s) = Some voxels /\
            m_blocks s' = voxels).
  { destruct Hparse as [Hparse | [code Hparse]]; rewrite Hparse in Hcases.
    - destruct Hcases as (l & li & hh & v & Hl & Hd & _ & _ & ->).
      exists l, li, hh, v. repeat split; assumption.
    - destruct Hcases as (l & li & v & _ & Hl & Hd & _ & ->).
      exists l, li, h', v. repeat split; assumption. }
  destruct Hrun as (locals & light & h1 & voxels & Hlocals & Hdec & Hs').
  destruct (Parse_locals_inv _ _ _ _ _ _ Hlocals) as (raw & pl & dl & _ & _ & Hloc & _).
  destruct (decode_loop_spec _ _ _ _ _ _ Hdec) as (added & -> & Hlen & Hnth).
  exists added. cbn [snd]. split; [exact Hs' |]. split; [exact Hlen |].
  apply Forall_forall. intros b Hin.
  destruct (In_nth_error _ _ Hin) as [j Hj].
  assert (Hjlt : (j < SECTION_VOLUME)%nat).
  { rewrite <- Hlen. apply nth_error_Some. rewrite Hj. discriminate. }
  destruct (Hnth j Hjlt) as (local & g & Hlocal & Hres & Hb).
  rewrite Hj in Hb. injection Hb as ->.
  rewrite Hpal in Hres. unfold resolve in Hres. cbn [length Nat.ltb Nat.leb] in Hres.
  injection Hres as <-.
  assert (Hsmall : 0 <= local < 16).
  { apply (emitted_below_16 (m_bitsPerBlock s)); [exact Hk |].
    apply (unpack_emitted_ok (m_bitsPerBlock s) ltac:(lia) (normalized s raw)).
    rewrite <- Hloc. apply (nth_error_In _ _ Hlocal). }
  rewrite (make_block_small local Hsmall). cbn [id state]. split; [reflexivity | exact Hsmall].
Qed.

Lemma odd_sample_fields :
  m_dataBlocks (snd odd_sample) = Some 3%nat /\
  m_palette (snd odd_sample) = [] /\ m_bitsPerBlock (snd odd_sample) = 8 /\
  m_blocks (snd odd_sample) = [].
Proof.
  destruct (construct_fields (ramp (Z.to_nat 4097)) 8 [])
    as (Hp & _ & _ & Hb & _ & Hk & Hpal & _).
  unfold odd_sample. repeat split; assumption.
Qed.

Lemma Parse_direct_ids_witness :
  exists o added,
    Parse (fst odd_sample) (snd odd_sample) = Returned o /\
    m_blocks (snd o) = m_blocks (snd odd_sample) ++ added /\
    length added = SECTION_VOLUME /\
    Forall (fun b => id b = 0 /\ 0 <= state b < 16) added.
Proof.
  destruct odd_sample_runs as (locals & light & h1 & h' & s' & _ & _ & _ & Hparse).
  destruct odd_sample_fields as (Hp & Hpal & Hk & _).
  destruct (Parse_direct_ids (fst odd_sample) (snd odd_sample) 3%nat (h', s'))
    as (added & Hrest).
  - exact Hp.
  - exact Hpal.
  - rewrite Hk. lia.
  - left. exact Hparse.
  - exists (h', s'), added. split; [exact Hparse | exact Hrest].
Defined.

(** * The light vector *)

Lemma heap_put_put (h : Heap) (p : loc) (c c' : option (list Z)) :
  heap_put (heap_put h p c) p c' = heap_put h p c'.
Proof.
  revert p. induction h as [| x h IH]; intros p; [reflexivity |].
  destruct p; cbn [heap_put]; [reflexivity | rewrite IH; reflexivity].
Qed.

Lemma heap_put_comm (h : Heap) (p q : loc) (c c' : option (list Z)) :
  p <> q -> heap_put (heap_put h p c) q c' = heap_put (heap_put h q c') p c.
Proof.
  revert p q. induction h as [| x h IH]; intros p q Hne; [reflexivity |].
  destruct p, q; cbn [heap_put]; try reflexivity; [congruence |].
  rewrite IH by congruence. reflexivity.
Qed.

(** X14.  The values of the light array have no effect on [Parse]: the
    vector [light] is a local whose size alone is used, and the array is freed.
    Overwriting the light array with any other array of at least 2048 bytes
    before the run gives the same decoded section and the same heap. *)
Theorem Parse_discards_light (h : Heap) (s : Section) (p pLight : loc)
    (other : list Z) (h' : Heap) (s' : Section) :
  m_dataBlocks s = Some p -> m_dataLight s = Some pLight -> pLight <> p ->
  (LIGHT_BYTES <= length other)%nat ->
  Parse h s = Returned (h', s') ->
  Parse (heap_put h pLight (Some other)) s = Returned (h', s').
Proof.
  intros Hp Hl Hne Hother Hparse.
  pose proof (Parse_pending h s p Hp) as Hcases. rewrite Hparse in Hcases.
  destruct Hcases as (locals & light & h1 & voxels & Hlocals & Hdec & Hcheck & -> & ->).
  pose proof (Parse_locals_light _ _ _ _ _ _ Hlocals) as Hlight.
  destruct (Parse_locals_inv _ _ _ _ _ _ Hlocals)
    as (raw & pl & dl & Hraw & Hlen & Hloc & Hh1 & Hpl & Hdl & _).
  rewrite Hl in Hpl. injection Hpl as <-.
  rewrite Hh1, heap_get_put_other in Hdl by congruence.
  pose proof (heap_get_live _ _ _ Hdl) as Hbound.
  set (hm := heap_put h pLight (Some other)).
  assert (Hrawm : heap_get hm p = Some raw).
  { unfold hm. rewrite heap_get_put_other by congruence. exact Hraw. }
  assert (Hotherm : heap_get hm pLight = Some other).
  { unfold hm. apply heap_get_put_same. exact Hbound. }
  destruct (Parse_locals_total hm s p pLight raw other Hrawm Hlen Hl Hne Hotherm Hother)
    as (lightm & h1m & Hlocalsm & _).
  pose proof (Parse_locals_light _ _ _ _ _ _ Hlocalsm) as Hlightm.
  destruct (Parse_locals_inv _ _ _ _ _ _ Hlocalsm)
    as (raw' & pl' & dl' & Hraw' & _ & _ & Hh1m & _).
  rewrite Hrawm in Hraw'. injection Hraw' as <-.
  rewrite <- Hloc in Hlocalsm.
  unfold Parse. rewrite Hp, Hlocalsm, Hdec.
  replace (count_check lightm locals) with true
    by (rewrite <- Hcheck; unfold count_check; rewrite Hlight, Hlightm; reflexivity).
  cbv zeta. f_equal. f_equal. f_equal.
  rewrite Hh1m, Hh1, Hl. unfold hm. cbn [heap_delete].
  rewrite !heap_put_put.
  rewrite (heap_put_comm h pLight p) by assumption.
  rewrite heap_put_put. reflexivity.
Qed.

Lemma Parse_discards_light_witness :
  Parse (heap_put (fst pending_sample) 4%nat (Some sample_sky)) (snd pending_sample)
  = Returned decoded_sample.
Proof.
  destruct pending_sample_fields as (Hp & Hl & _).
  rewrite (surjective_pairing decoded_sample).
  apply (Parse_discards_light (fst pending_sample) (snd pending_sample) 3%nat 4%nat
           sample_sky).
  - exact Hp.
  - exact Hl.
  - intros E. discriminate E.
  - unfold sample_sky. rewrite repeat_length. apply le_n.
  - destruct pending_sample_runs as (l & li & hh & _ & _ & _ & -> & _).
    apply f_equal, surjective_pairing.
Defined.

(** * Which buffers Parse accepts *)

(** X15.  The outcome of [Parse] on a well-formed pending section (live block
    and light arrays of sufficient length, a sky-light pointer that is null or
    refers to a third live array, a width from 1 to 32 bits per block, a
    palette that is empty or has at least [2 ^ (8 - m_bitsPerBlock)] entries)
    is decided by [n = 8 * m_dataBlocksLen / m_bitsPerBlock], the number of
    local indices: below 4096 the voxel loop reads outside the vector and the
    behaviour is undefined, for 4096 and 4097 the run returns, from 4098 on it
    throws 118. *)
Theorem Parse_outcome_by_length (h : Heap) (s : Section) (p pLight : loc)
    (raw dataLight : list Z) :
  m_dataBlocks s = Some p ->
  heap_get h p = Some raw -> (m_dataBlocksLen s <= length raw)%nat ->
  m_dataLight s = Some pLight -> pLight <> p ->
  heap_get h pLight = Some dataLight -> (LIGHT_BYTES <= length dataLight)%nat ->
  (forall pSky, m_dataSkyLight s = Some pSky ->
     pSky <> p /\ pSky <> pLight /\ exists sky, heap_get h pSky = Some sky) ->
  1 <= m_bitsPerBlock s <= 32 ->
  (m_palette s = [] \/
   (m_palette s <> [] /\
    2 ^ (8 - m_bitsPerBlock s) <= Z.of_nat (length (m_palette s)))) ->
  let n := 8 * Z.of_nat (m_dataBlocksLen s) / m_bitsPerBlock s in
  (n < 4096 -> Parse h s = Undefined) /\
  (4096 <= n <= 4097 -> exists h' s', Parse h s = Returned (h', s')) /\
  (4098 <= n -> exists h' s', Parse h s = Thrown 118 (h', s')).
Proof.
  intros Hp Hraw Hlen Hl Hne Hdl Hlendl Hsky [Hk Hwidth] Hpal n.
  split; [| split].
  - intros Hn.
    destruct (Parse_locals_total h s p pLight raw dataLight Hraw Hlen Hl Hne Hdl Hlendl)
      as (light & h1 & Hlocals & _).
    apply (Parse_too_few_locals _ _ _ _ _ _ Hp Hlocals).
    pose proof (Parse_locals_count _ _ _ _ _ _ Hk Hlocals) as Hcount.
    fold n in Hcount. unfold SECTION_VOLUME. lia.
  - intros Hn.
    destruct (Parse_returns h s p pLight raw dataLight) as (h' & s' & Hparse & _);
      try assumption; [fold n; lia |].
    exists h', s'. exact Hparse.
  - intros Hn.
    destruct (Parse_throws h s p pLight raw dataLight) as (h' & s' & Hparse & _);
      try assumption.
    exists h', s'. exact Hparse.
Qed.

Lemma Parse_outcome_by_length_witness :
  let n := 8 * Z.of_nat (m_dataBlocksLen (snd long_sample))
           / m_bitsPerBlock (snd long_sample) in
  (n < 4096 -> Parse (fst long_sample) (snd long_sample) = Undefined) /\
  (4096 <= n <= 4097 ->
   exists h' s', Parse (fst long_sample) (snd long_sample) = Returned (h', s')) /\
  (4098 <= n ->
   exists h' s', Parse (fst long_sample) (snd long_sample) = Thrown 118 (h', s')).
Proof.
  destruct long_sample_fields
    as (Hp & Hl & Hs & _ & Hlen & Hk & Hpal & Hraw & Hlight & Hsky & _).
  apply (Parse_outcome_by_length (fst long_sample) (snd long_sample) 3%nat 4%nat
           (ramp (Z.to_nat 2056)) sample_light).
  - exact Hp.
  - exact Hraw.
  - rewrite Hlen. apply le_n.
  - exact Hl.
  - intros E. discriminate E.
  - exact Hlight.
  - rewrite sample_light_length. apply le_n.
  - intros pSky E. rewrite Hs in E. injection E as <-.
    split; [intros E; discriminate E |]. split; [intros E; discriminate E |].
    eexists. exact Hsky.
  - rewrite Hk. lia.
  - left. exact Hpal.
Defined.

(** * Positions and indices *)

Lemma block_index_inj (p q : Vector) :
  0 <= GetX p < 16 -> 0 <= GetZ p < 16 ->
  0 <= GetX q < 16 -> 0 <= GetZ q < 16 ->
  block_index p = block_index q -> p = q.
Proof.
  destruct p as [x y z], q as [x' y' z']. unfold block_index. cbn [GetX GetY GetZ].
  intros Hx Hz Hx' Hz' Heq.
  assert (y = y') by lia. assert (z = z') by lia. assert (x = x') by lia.
  subst. reflexivity.
Qed.

Lemma GetBlock_decoded (s : Section) (pos : Vector) :
  m_dataBlocks s = None -> 0 <= block_index pos ->
  GetBlock s pos
  = match nth_error (m_blocks s) (Z.to_nat (block_index pos)) with
    | Some b => Found b
    | None => OutOfRange
    end.
Proof.
  intros Hnull Hpos. unfold GetBlock. rewrite Hnull.
  replace (block_index pos <? 0) with false by (symmetry; apply Z.ltb_ge; exact Hpos).
  reflexivity.
Qed.

(** X16.  On a decoded section every stored voxel with an index below 4096
    is the answer of [GetBlock] at some position of the cube [0,16)^3, and at
    no other position with [x] and [z] in [0,16): the index
    [y * 256 + z * 16 + x] of line 45 is one-to-one there. *)
Theorem GetBlock_reaches_every_voxel (s : Section) (i : nat) (b : Block) :
  m_dataBlocks s = None -> (i < SECTION_VOLUME)%nat ->
  nth_error (m_blocks s) i = Some b ->
  exists pos,
    (0 <= GetX pos < 16 /\ 0 <= GetY pos < 16 /\ 0 <= GetZ pos < 16) /\
    block_index pos = Z.of_nat i /\
    GetBlock s pos = Found b /\
    forall q, 0 <= GetX q < 16 -> 0 <= GetZ q < 16 ->
              block_index q = Z.of_nat i -> q = pos.
Proof.
  intros Hnull Hi Hb. unfold SECTION_VOLUME in Hi.
  set (n := Z.of_nat i). assert (Hn : 0 <= n < 4096) by lia.
  set (pos := mkVector (n mod 16) (n / 256) (n / 16 mod 16)).
  assert (Hidx : block_index pos = n).
  { unfold block_index, pos. cbn [GetX GetY GetZ]. Z.div_mod_to_equations. lia. }
  exists pos. split; [| split; [exact Hidx | split]].
  - unfold pos. cbn [GetX GetY GetZ]. Z.div_mod_to_equations. lia.
  - rewrite (GetBlock_decoded s pos Hnull) by (rewrite Hidx; lia).
    rewrite Hidx. unfold n. rewrite Nat2Z.id, Hb. reflexivity.
  - intros q Hx Hz Hq. apply block_index_inj; try assumption.
    + unfold pos. cbn [GetX]. Z.div_mod_to_equations. lia.
    + unfold pos. cbn [GetZ]. Z.div_mod_to_equations. lia.
    + rewrite Hq, Hidx. reflexivity.
Qed.


Lemma decoded_sample_fields :
  m_dataBlocks (snd decoded_sample) = None /\
  length (m_blocks (snd decoded_sample)) = SECTION_VOLUME.
Proof.
  destruct pending_sample_runs as (l & li & hh & _ & _ & _ & _ & Hp & _ & Hlen).
  split; assumption.
Qed.

Lemma decoded_sample_first :
  exists b, nth_error (m_blocks (snd decoded_sample)) 0 = Some b.
Proof.
  destruct decoded_sample_fields as [_ Hlen].
  destruct (nth_error (m_blocks (snd decoded_sample)) 0) as [b |] eqn:Hb.
  - exists b. reflexivity.
  - exfalso. apply nth_error_None in Hb. rewrite Hlen in Hb.
    unfold SECTION_VOLUME in Hb. lia.
Qed.

Lemma GetBlock_reaches_every_voxel_witness :
  exists b pos,
    nth_error (m_blocks (snd decoded_sample)) 0 = Some b /\
    (0 <= GetX pos < 16 /\ 0 <= GetY pos < 16 /\ 0 <= GetZ pos < 16) /\
    block_index pos = Z.of_nat 0 /\
    GetBlock (snd decoded_sample) pos = Found b /\
    forall q, 0 <= GetX q < 16 -> 0 <= GetZ q < 16 ->
              block_index q = Z.of_nat 0 -> q = pos.
Proof.
  destruct decoded_sample_fields as [Hnull _].
  destruct decoded_sample_first as [b Hb].
  destruct (GetBlock_reaches_every_voxel (snd decoded_sample) 0 b Hnull)
    as (pos & Hrest).
  - unfold SECTION_VOLUME. lia.
  - exact Hb.
  - exists b, pos. split; [exact Hb | exact Hrest].
Defined.


(** * An empty block buffer *)

(** X18.  A section constructed with [dataBlocksLength = 0] cannot be
    parsed: the constructor allocates an empty block array, so the section
    counts as pending, the bit loop emits nothing, and the voxel loop reads
    element 0 of an empty vector. *)
Theorem Parse_empty_buffer (h : Heap) (position : Vector) (dataBlocks dataLight
    dataSky : option loc) (bitsPerBlock : Z) (palette : list Z)
    (h' : Heap) (s : Section) :
  Section_new h position dataBlocks 0 dataLight dataSky bitsPerBlock palette
  = Returned (h', s) ->
  raw_present s = true /\ Parse h' s = Undefined.
Proof.
  intros Hnew.
  destruct (Section_new_returned _ _ _ _ _ _ _ _ _ _ Hnew) as [_ Hraw].
  split; [exact Hraw |].
  assert (Hlen : m_dataBlocksLen s = 0%nat).
  { unfold Section_new in Hnew.
    destruct (new_copy h dataBlocks 0) as [[h1 pb] |]; [| discriminate Hnew].
    destruct (new_copy h1 dataLight LIGHT_BYTES) as [[h2 pl] |]; [| discriminate Hnew].
    destruct dataSky as [ps |].
    - destruct (new_copy h2 (Some ps) LIGHT_BYTES) as [[h3 pss] |]; [| discriminate Hnew].
      injection Hnew as _ <-. reflexivity.
    - injection Hnew as _ <-. reflexivity. }
  unfold raw_present in Hraw.
  destruct (m_dataBlocks s) as [p |] eqn:Hp; [| discriminate Hraw].
  destruct (Parse_locals h' s p) as [[[locals light] h1] |] eqn:Hlocals.
  - apply (Parse_too_few_locals h' s p locals light h1 Hp Hlocals).
    destruct (Parse_locals_inv _ _ _ _ _ _ Hlocals) as (raw & pl & dl & _ & _ & -> & _).
    unfold normalized. rewrite Hlen. cbn [Nat.div Nat.divmod fst firstn endswap_loop].
    cbn [unpack unpack_loop unpacker_init blocks fst length].
    unfold SECTION_VOLUME. lia.
  - unfold Parse. rewrite Hp, Hlocals. reflexivity.
Qed.

Lemma Parse_empty_buffer_witness :
  exists h' s,
    Section_new (caller_heap []) sample_position (Some 0%nat) 0 (Some 1%nat)
      (Some 2%nat) 4 [] = Returned (h', s) /\
    raw_present s = true /\ Parse h' s = Undefined.
Proof.
  destruct (construct_spec [] 4 []) as [Hnew _].
  cbn [length] in Hnew.
  exists (fst (construct [] 4 [])), (snd (construct [] 4 [])).
  rewrite <- surjective_pairing.
  split; [exact Hnew |].
  apply (Parse_empty_buffer (caller_heap []) sample_position (Some 0%nat) (Some 1%nat)
           (Some 2%nat) 4 []).
  rewrite <- surjective_pairing. exact Hnew.
Defined.
